(** * Call-matching engine of the signaling server (src/server.js)

    A shallow embedding of the in-memory stores ([agents], [waitingQueue],
    [pairings]) and of every socket event handler, followed by the
    properties of the matching engine.

    Modelling conventions.
    - A connection identifier ([socket.id], and the [supplierId],
      [partnerId], [to] fields of payloads) is a [string].  A socket id is
      generated by the server: it is never empty and never the name of a
      member of [Object.prototype].  An id sent by a client is any string:
      the handlers validate nothing.
    - [agents] and [pairings] are plain objects ([{}]).  Reading a key that
      is absent but names an inherited member gives a truthy value; the
      handlers use such a read only to guard a [delete] or a flag write on
      the value read, neither of which changes a store, so a read is the
      lookup of an own key.  Writing a string at the key ["__proto__"] calls
      the prototype setter, which ignores it: nothing is stored.
    - [agents] is a JS object enumerated with [Object.keys]: its keys,
      which are socket ids and so never array indices, come back in
      insertion order, and assigning to an existing key keeps the key's
      place.  It is an association list in insertion order.
    - [pairings] is a JS object only ever read by key: a [gmap].
    - [waitingQueue] is a JS array: a [list].
    - A handler mutates the three stores and emits messages: handlers
      live in a state-and-output monad [M], one bind per source
      statement.
    - JS truthiness of a value that is a string or [undefined] is
      [truthy]: [undefined] and the empty string are falsy. *)

From Stdlib Require Import ZArith.
From stdpp Require Import gmap strings list.

Local Open Scope Z_scope.
Local Open Scope string_scope.
Local Open Scope list_scope.

(** ** Data model *)

(** [{ name, busy }], the value stored under [agents[socketId]]. *)
Record agent := Agent { name : string; busy : bool }.

(** Outbound event names with their payloads. *)
Inductive payload :=
| AgentRegistered (nm : string) (queueLength : Z)
| QueueStatus (position : Z)
| IncomingCall (supplierId : string)
| CallRequested (agentId : string)
| CallAccepted (agentId : string)
| CallStarted (supplierId : string)
| AgentDisconnected
| SupplierDisconnected (supplierId : string)
| CallEnded (by_ : string)
| RelayOffer (from sdp : string)
| RelayAnswer (from sdp : string)
| RelayCandidate (from candidate : string).

(** One [io.to(dest).emit(...)] or [socket.emit(...)]. *)
Record msg := Msg { dest : string; body : payload }.

(** Inbound event names with their payloads. *)
Inductive event :=
| AgentRegister (nm : option string)
| SupplierCall
| AgentAccept (supplierId : string)
| AgentReject (supplierId : string)
| WebrtcOffer (to sdp : string)
| WebrtcAnswer (to sdp : string)
| WebrtcCandidate (to candidate : string)
| EndCall (partnerId : string)
| Disconnect.

(** The three module-level stores. *)
Record state := State {
  agents : list (string * agent);
  waitingQueue : list string;
  pairings : gmap string string
}.

Definition init : state := State [] [] ∅.

(** ** JS primitives used by the handlers *)

(** [if (v)] for [v] a string or [undefined]: the branch taken, with the
    value it binds. *)
Definition truthy (v : option string) : option string :=
  match v with
  | Some s => if decide (s = "") then None else Some s
  | None => None
  end.

(** [agents[k]] *)
Fixpoint agents_get (k : string) (ags : list (string * agent)) : option agent :=
  match ags with
  | [] => None
  | (k', a) :: rest => if decide (k = k') then Some a else agents_get k rest
  end.

(** [agents[k] = a]: overwrite in place, or add as the last key. *)
Fixpoint agents_set (k : string) (a : agent) (ags : list (string * agent))
  : list (string * agent) :=
  match ags with
  | [] => [(k, a)]
  | (k', a') :: rest =>
      if decide (k = k') then (k', a) :: rest else (k', a') :: agents_set k a rest
  end.

(** [agents[k].busy = b], for a key that is present. *)
Fixpoint agents_set_busy (k : string) (b : bool) (ags : list (string * agent))
  : list (string * agent) :=
  match ags with
  | [] => []
  | (k', a') :: rest =>
      if decide (k = k') then (k', Agent (name a') b) :: rest
      else (k', a') :: agents_set_busy k b rest
  end.

(** [delete agents[k]] *)
Fixpoint agents_delete (k : string) (ags : list (string * agent))
  : list (string * agent) :=
  match ags with
  | [] => []
  | (k', a') :: rest =>
      if decide (k = k') then agents_delete k rest else (k', a') :: agents_delete k rest
  end.

(** [Object.keys(agents)] *)
Definition keys (ags : list (string * agent)) : list string := ags.*1.

(** [agents[id].busy === false] *)
Definition is_free (ags : list (string * agent)) (id : string) : bool :=
  bool_decide (busy <$> agents_get id ags = Some false).

(** [Object.keys(agents).find(id => agents[id].busy === false)] *)
Definition findFreeAgent (ags : list (string * agent)) : option string :=
  List.find (is_free ags) (keys ags).

(** [waitingQueue.includes(x)] *)
Fixpoint includes (x : string) (q : list string) : bool :=
  match q with
  | [] => false
  | y :: rest => if decide (x = y) then true else includes x rest
  end.

(** [waitingQueue.indexOf(x)], [-1] when absent. *)
Fixpoint indexOf (x : string) (q : list string) : Z :=
  match q with
  | [] => -1
  | y :: rest =>
      if decide (x = y) then 0
      else let i := indexOf x rest in if decide (i = -1) then -1 else i + 1
  end.

(** [waitingQueue.splice(i, 1)] for [i >= 0]. *)
Fixpoint splice1 (i : nat) (q : list string) {struct q} : list string :=
  match q, i with
  | [], _ => []
  | _ :: rest, O => rest
  | y :: rest, S i' => y :: splice1 i' rest
  end.

(** [name || `Agent-${socket.id.slice(0,5)}`] *)
Definition display_name (nm : option string) (sid : string) : string :=
  match truthy nm with
  | Some n => n
  | None => "Agent-" +:+ String.substring 0 5 sid
  end.

(** ** The handler monad: the stores threaded, emitted messages appended *)

Definition M (A : Type) : Type := state → A * state * list msg.

#[global] Instance M_ret : MRet M := λ A a st, (a, st, []).
#[global] Instance M_bind : MBind M := λ A B f m st,
  let '(a, st1, o1) := m st in
  let '(b, st2, o2) := f a st1 in
  (b, st2, o1 ++ o2).

Definition gets {A} (f : state → A) : M A := λ st, (f st, st, []).
Definition modify (f : state → state) : M unit := λ st, (tt, f st, []).
Definition emit (d : string) (p : payload) : M unit := λ st, (tt, st, [Msg d p]).
Definition skip : M unit := mret tt.

Definition with_agents (f : list (string * agent) → list (string * agent)) : M unit :=
  modify (λ st, State (f (agents st)) (waitingQueue st) (pairings st)).
Definition with_queue (f : list string → list string) : M unit :=
  modify (λ st, State (agents st) (f (waitingQueue st)) (pairings st)).
Definition with_pairings (f : gmap string string → gmap string string) : M unit :=
  modify (λ st, State (agents st) (waitingQueue st) (f (pairings st))).

(** [agents[k].busy = b] *)
Definition set_busy (k : string) (b : bool) : M unit := with_agents (agents_set_busy k b).
(** [if (agents[k]) agents[k].busy = false] *)
Definition clear_busy_if_agent (k : string) : M unit :=
  a ← gets (λ st, agents_get k (agents st));
  match a with Some _ => set_busy k false | None => skip end.
(** [pairings[k] = v] where [k] is [socket.id] or a key of [agents], that
    is, a socket id. *)
Definition set_pairing (k v : string) : M unit := with_pairings (insert k v).
(** What [pairings[k] = v] stores when [k] is any string: nothing at
    ["__proto__"]. *)
Definition assign_received (k v : string) (m : gmap string string)
  : gmap string string :=
  if decide (k = "__proto__") then m else <[k:=v]> m.
(** [pairings[k] = v] where [k] was sent by a client, or is read back from
    the queue or from a pairing value, which clients can fill. *)
Definition set_pairing_received (k v : string) : M unit :=
  with_pairings (assign_received k v).
(** [delete pairings[k]] *)
Definition delete_pairing (k : string) : M unit := with_pairings (delete k).
(** [if (pairings[k]) delete pairings[k]] *)
Definition delete_pairing_if_truthy (k : string) : M unit :=
  p ← gets (λ st, pairings st !! k);
  match truthy p with Some _ => delete_pairing k | None => skip end.
(** [waitingQueue.push(x)] *)
Definition push (x : string) : M unit := with_queue (λ q, q ++ [x]).
(** [waitingQueue.shift()] *)
Definition shift : M (option string) := λ st,
  match waitingQueue st with
  | [] => (None, st, [])
  | x :: rest => (Some x, State (agents st) rest (pairings st), [])
  end.

(** The offer made to a free agent.  Lines 48-52: the supplier is the
    calling socket. *)
Definition offer_supplier_first (supplier agentId : string) : M unit :=
  set_busy agentId true;;
  set_pairing supplier agentId;;
  set_pairing agentId supplier;;
  emit agentId (IncomingCall supplier);;
  emit supplier (CallRequested agentId).

(** Lines 78-82: the same block, the supplier being the [supplierId] of the
    rejected call. *)
Definition offer_rejected_supplier (supplier agentId : string) : M unit :=
  set_busy agentId true;;
  set_pairing_received supplier agentId;;
  set_pairing agentId supplier;;
  emit agentId (IncomingCall supplier);;
  emit supplier (CallRequested agentId).

(** Lines 118-122 and 137-141: the agent's entry is written first, and the
    supplier is the queue front or the value of a pairing entry. *)
Definition offer_agent_first (supplier agentId : string) : M unit :=
  set_busy agentId true;;
  set_pairing agentId supplier;;
  set_pairing_received supplier agentId;;
  emit agentId (IncomingCall supplier);;
  emit supplier (CallRequested agentId).

(** ** Event handlers, [sid] being [socket.id] *)

(** [socket.on('agent-register', ...)], lines 32-36 *)
Definition agent_register (sid : string) (nm : option string) : M unit :=
  with_agents (agents_set sid (Agent (display_name nm sid) false));;
  stored ← gets (λ st, agents_get sid (agents st));
  len ← gets (λ st, Z.of_nat (length (waitingQueue st)));
  emit sid (AgentRegistered (from_option name "" stored) len).

(** [socket.on('supplier-call', ...)], lines 39-59 *)
Definition supplier_call (sid : string) : M unit :=
  queued ← gets (λ st, includes sid (waitingQueue st));
  if queued : bool then
    pos ← gets (λ st, indexOf sid (waitingQueue st) + 1);
    emit sid (QueueStatus pos)
  else
    freeAgentId ← gets (λ st, findFreeAgent (agents st));
    match truthy freeAgentId with
    | Some a => offer_supplier_first sid a
    | None =>
        push sid;;
        len ← gets (λ st, Z.of_nat (length (waitingQueue st)));
        emit sid (QueueStatus len)
    end.

(** [socket.on('agent-accept', ...)], lines 62-71 *)
Definition agent_accept (sid supplierId : string) : M unit :=
  me ← gets (λ st, agents_get sid (agents st));
  match me with
  | None => skip
  | Some _ =>
      set_pairing_received supplierId sid;;
      set_pairing sid supplierId;;
      set_busy sid true;;
      emit supplierId (CallAccepted sid);;
      emit sid (CallStarted supplierId)
  end.

(** [socket.on('agent-reject', ...)], lines 74-87 *)
Definition agent_reject (sid supplierId : string) : M unit :=
  clear_busy_if_agent sid;;
  freeAgent ← gets (λ st, findFreeAgent (agents st));
  match truthy freeAgent with
  | Some a => offer_rejected_supplier supplierId a
  | None =>
      queued ← gets (λ st, includes supplierId (waitingQueue st));
      (if queued : bool then skip else push supplierId);;
      pos ← gets (λ st, indexOf supplierId (waitingQueue st) + 1);
      emit supplierId (QueueStatus pos)
  end.

(** [socket.on('end-call', ...)], lines 104-111: the teardown. *)
Definition end_call_teardown (sid partnerId : string) : M unit :=
  clear_busy_if_agent sid;;
  clear_busy_if_agent partnerId;;
  delete_pairing_if_truthy sid;;
  delete_pairing_if_truthy partnerId;;
  emit partnerId (CallEnded sid).

(** [socket.on('end-call', ...)], lines 113-124: the promotion. *)
Definition end_call_promote : M unit :=
  freeAgent ← gets (λ st, findFreeAgent (agents st));
  len ← gets (λ st, Z.of_nat (length (waitingQueue st)));
  match truthy freeAgent with
  | Some a =>
      if decide (len > 0) then
        nextSupplier ← shift;
        match truthy nextSupplier with
        | Some s => offer_agent_first s a
        | None => skip
        end
      else skip
  | None => skip
  end.

(** [socket.on('end-call', ...)], lines 103-125 *)
Definition end_call (sid partnerId : string) : M unit :=
  end_call_teardown sid partnerId;;
  end_call_promote.

(** [socket.on('disconnect', ...)], lines 128-162 *)
Definition disconnect (sid : string) : M unit :=
  me ← gets (λ st, agents_get sid (agents st));
  match me with
  | Some _ =>
      supplier ← gets (λ st, pairings st !! sid);
      match truthy supplier with
      | Some s =>
          delete_pairing s;;
          emit s AgentDisconnected;;
          freeAgent ← gets (λ st, findFreeAgent (agents st));
          match truthy freeAgent with
          | Some a => offer_agent_first s a
          | None =>
              push s;;
              pos ← gets (λ st, indexOf s (waitingQueue st) + 1);
              emit s (QueueStatus pos)
          end
      | None => skip
      end;;
      with_agents (agents_delete sid);;
      delete_pairing sid
  | None =>
      qIndex ← gets (λ st, indexOf sid (waitingQueue st));
      (if decide (qIndex >= 0) then with_queue (splice1 (Z.to_nat qIndex)) else skip);;
      pairedAgent ← gets (λ st, pairings st !! sid);
      match truthy pairedAgent with
      | Some a =>
          emit a (SupplierDisconnected sid);;
          clear_busy_if_agent a;;
          delete_pairing a
      | None => skip
      end;;
      delete_pairing sid
  end.

(** The three relays, lines 90-100. *)
Definition relay (sid : string) (ev : event) : M unit :=
  match ev with
  | WebrtcOffer to sdp => emit to (RelayOffer sid sdp)
  | WebrtcAnswer to sdp => emit to (RelayAnswer sid sdp)
  | WebrtcCandidate to candidate => emit to (RelayCandidate sid candidate)
  | _ => skip
  end.

(** Dispatch of one event received on socket [sid]. *)
Definition handle (sid : string) (ev : event) : M unit :=
  match ev with
  | AgentRegister nm => agent_register sid nm
  | SupplierCall => supplier_call sid
  | AgentAccept supplierId => agent_accept sid supplierId
  | AgentReject supplierId => agent_reject sid supplierId
  | EndCall partnerId => end_call sid partnerId
  | Disconnect => disconnect sid
  | WebrtcOffer _ _ | WebrtcAnswer _ _ | WebrtcCandidate _ _ => relay sid ev
  end.

(** The stores after one event, and what the event emitted. *)
Definition step (st : state) (sid : string) (ev : event) : state * list msg :=
  let '(_, st', out) := handle sid ev st in (st', out).

Definition after (st : state) (se : string * event) : state := (step st se.1 se.2).1.
Definition emitted (st : state) (se : string * event) : list msg := (step st se.1 se.2).2.

(** Events handled to completion, one after another. *)
Definition run (st : state) (trace : list (string * event)) : state :=
  foldl after st trace.

(** An event arrives on a socket, whose id is not empty; what the event
    carries is not constrained. *)
Definition wf_event (se : string * event) : Prop := se.1 ≠ "".

(** States at rest: the initial stores after any number of events. *)
Inductive reachable : state → Prop :=
| reachable_init : reachable init
| reachable_step st se : reachable st → wf_event se → reachable (after st se).

(** ** Running a handler *)

Definition value {A} (m : M A) (st : state) : A := (m st).1.1.
Definition exec {A} (m : M A) (st : state) : state := (m st).1.2.
Definition output {A} (m : M A) (st : state) : list msg := (m st).2.

(** ** Well-formedness of the stores *)

(** Keys of [agents] are distinct (it is an object) and are socket ids. *)
Record store_ok (st : state) : Prop := StoreOk {
  ok_agents_nodup : NoDup (keys (agents st));
  ok_agents_ids : Forall (λ k, k ≠ "") (keys (agents st))
}.

(** An empty string is stored as a pairing value only by lines 66 and 80,
    under the key of a registered agent. *)
Definition empty_values_at_agents (st : state) : Prop :=
  ∀ k, pairings st !! k = Some "" → is_Some (agents_get k (agents st)).

(** What [if (pairings[k]) delete pairings[k]] leaves of the table, and of
    the entry at [k]: an entry holding the empty string stays. *)
Definition delete_truthy (k : string) (m : gmap string string)
  : gmap string string :=
  match truthy (m !! k) with Some _ => delete k m | None => m end.

Definition kept_if_empty (o : option string) : option string :=
  match o with
  | Some v => if decide (v = "") then Some v else None
  | None => None
  end.

Definition preserves {A} (I : state → Prop) (m : M A) : Prop :=
  ∀ st, I st → I (exec m st).

#[global] Instance wf_event_dec se : Decision (wf_event se).
Proof. unfold wf_event. apply _. Defined.

(** The stores once an [end-call] has cleared the flags and deleted the
    pairing entries, before it looks at the queue. *)
Definition torn_down (st : state) (sid partnerId : string) : state :=
  exec (end_call_teardown sid partnerId) st.

(** The four properties of the stores at rest that the handlers are
    checked against. *)
Definition pairing_symmetric (st : state) : Prop :=
  ∀ k v, pairings st !! k = Some v → pairings st !! v = Some k.

Definition busy_iff_paired (st : state) : Prop :=
  ∀ k r, agents_get k (agents st) = Some r →
         (busy r = true ↔ is_Some (pairings st !! k)).

Definition queue_pairing_exclusive (st : state) : Prop :=
  ∀ k, k ∈ waitingQueue st → pairings st !! k = None.

Definition queue_unique (st : state) : Prop := NoDup (waitingQueue st).

(** The traces the findings below are read from. *)
Definition sole_agent_offered : list (string * event) :=
  [("A1", AgentRegister None); ("S1", SupplierCall)].

Definition reject_with_earlier_agent_free : list (string * event) :=
  [("A2", AgentRegister None); ("S0", SupplierCall);
   ("A1", AgentRegister None); ("S1", SupplierCall);
   ("S0", EndCall "A2"); ("A1", AgentReject "S1")].

Definition paired_supplier_calls_again : list (string * event) :=
  [("A1", AgentRegister None); ("S1", SupplierCall); ("S1", SupplierCall)].

Definition agent_leaves_queued_supplier : list (string * event) :=
  [("A1", AgentRegister None); ("S1", SupplierCall); ("S1", SupplierCall);
   ("A1", Disconnect)].

(** Every agent record carries a display name. *)
Definition names_ok (st : state) : Prop :=
  Forall (λ p, name p.2 ≠ "") (agents st).

(** How one event may change the queue: entries are removed, the others keep
    their order, and at most one entry is appended at the tail. *)
Definition queue_moves_forward (q q' : list string) : Prop :=
  ∃ kept added, q' = kept ++ added ∧ kept `sublist_of` q ∧ (length added ≤ 1)%nat.

(** The three signaling events, lines 90-100. *)
Definition is_relay (ev : event) : bool :=
  match ev with
  | WebrtcOffer _ _ | WebrtcAnswer _ _ | WebrtcCandidate _ _ => true
  | _ => false
  end.

(** * Properties *)

(** ** Facts about the JS primitives *)

Section primitives.
Implicit Types (k a s x : string) (ags : list (string * agent)) (q : list string).

Lemma truthy_Some v s : truthy v = Some s ↔ v = Some s ∧ s ≠ "".
Proof.
  unfold truthy. destruct v as [t|]; [|by split; [|intros []]].
  destruct (decide (t = "")) as [->|]; split; try done.
  - by intros [[= <-] ?].
  - by intros [= <-].
  - by intros [[= <-] _].
Qed.

Lemma truthy_nonempty s : s ≠ "" → truthy (Some s) = Some s.
Proof. intros. by apply truthy_Some. Qed.

Lemma agents_get_set_busy k k' b ags :
  agents_get k (agents_set_busy k' b ags) =
    if decide (k = k') then (λ r, Agent (name r) b) <$> agents_get k ags
    else agents_get k ags.
Proof.
  induction ags as [|[k0 r0] rest IH]; simpl; [by case_decide|].
  destruct (decide (k' = k0)) as [->|Hk0]; simpl.
  - by destruct (decide (k = k0)).
  - destruct (decide (k = k0)) as [->|]; [by rewrite decide_False|].
    apply IH.
Qed.

Lemma agents_keys_set_busy k b ags : keys (agents_set_busy k b ags) = keys ags.
Proof.
  unfold keys. induction ags as [|[k0 r0] rest IH]; csimpl; [done|].
  case_decide; csimpl; by rewrite ?IH.
Qed.

Lemma agents_get_None k ags : agents_get k ags = None ↔ k ∉ keys ags.
Proof.
  unfold keys. induction ags as [|[k0 r0] rest IH]; csimpl.
  { split; [intros _; apply not_elem_of_nil|done]. }
  rewrite elem_of_cons. case_decide; [|rewrite IH; tauto].
  split; [done|]. intros []. by left.
Qed.

Lemma agents_get_is_Some k ags : is_Some (agents_get k ags) ↔ k ∈ keys ags.
Proof.
  rewrite <-not_eq_None_Some, agents_get_None.
  split; [apply dec_stable|naive_solver].
Qed.

Lemma agents_get_set k k' r ags :
  agents_get k (agents_set k' r ags) =
    if decide (k = k') then Some r else agents_get k ags.
Proof.
  induction ags as [|[k0 r0] rest IH]; simpl; [by case_decide|].
  destruct (decide (k' = k0)) as [->|Hk0]; simpl.
  - by destruct (decide (k = k0)).
  - destruct (decide (k = k0)) as [->|]; [by rewrite decide_False|].
    apply IH.
Qed.

Lemma agents_keys_set k r ags :
  keys (agents_set k r ags) =
    match agents_get k ags with Some _ => keys ags | None => keys ags ++ [k] end.
Proof.
  unfold keys. induction ags as [|[k0 r0] rest IH]; csimpl; [done|].
  case_decide; csimpl; [done|]. rewrite IH. by destruct (agents_get k rest).
Qed.

Lemma agents_keys_delete k ags :
  keys (agents_delete k ags) = filter (λ k', k' ≠ k) (keys ags).
Proof.
  unfold keys. induction ags as [|[k0 r0] rest IH]; csimpl; [done|].
  rewrite filter_cons. csimpl.
  case_decide; subst.
  - by rewrite decide_False by naive_solver.
  - rewrite decide_True by naive_solver. csimpl. by rewrite IH.
Qed.

Lemma is_free_spec ags k :
  is_free ags k = true ↔ ∃ r, agents_get k ags = Some r ∧ busy r = false.
Proof.
  unfold is_free. rewrite bool_decide_eq_true.
  destruct (agents_get k ags) as [r|]; simpl; split.
  - intros [= Hb]. eauto.
  - intros (r' & [= <-] & Hb). by rewrite Hb.
  - done.
  - by intros (r' & ? & _).
Qed.

(** [Array.prototype.find]: the first element satisfying the test. *)
Lemma find_first {A} (f : A → bool) (l : list A) (y : A) :
  List.find f l = Some y ↔
  ∃ l1 l2, l = l1 ++ y :: l2 ∧ f y = true ∧ Forall (λ z, f z = false) l1.
Proof.
  induction l as [|z l IH]; simpl.
  - split; [done|]. intros (l1 & ? & Heq & _). by destruct l1.
  - destruct (f z) eqn:Hz.
    + split.
      * intros [= ->]. exists [], l. by split_and!.
      * intros (l1 & l2 & Heq & Hy & Hall).
        destruct l1 as [|z' l1]; simplify_eq/=; [done|].
        apply Forall_cons in Hall as [Hz' _]. congruence.
    + rewrite IH. split.
      * intros (l1 & l2 & -> & Hy & Hall).
        exists (z :: l1), l2. split_and!; [done|done|by constructor].
      * intros (l1 & l2 & Heq & Hy & Hall).
        destruct l1 as [|z' l1]; simplify_eq/=; [congruence|].
        apply Forall_cons in Hall as [_ Hall]. eauto.
Qed.

Lemma find_none_iff {A} (f : A → bool) (l : list A) :
  List.find f l = None ↔ Forall (λ z, f z = false) l.
Proof.
  induction l as [|z l IH]; simpl; [by split; [constructor|]|].
  rewrite Forall_cons. destruct (f z); [|rewrite IH; tauto].
  split; [done|]. by intros [? _].
Qed.

(** The agent found is the first key, in insertion order, whose record
    is not busy. *)
Lemma findFreeAgent_first ags a :
  findFreeAgent ags = Some a ↔
  ∃ l1 l2, keys ags = l1 ++ a :: l2 ∧ is_free ags a = true ∧
           Forall (λ k, is_free ags k = false) l1.
Proof. apply find_first. Qed.

Lemma findFreeAgent_free ags a :
  findFreeAgent ags = Some a → ∃ r, agents_get a ags = Some r ∧ busy r = false.
Proof. intros (_ & _ & _ & Hf & _)%findFreeAgent_first. by apply is_free_spec. Qed.

Lemma findFreeAgent_is_key ags a : findFreeAgent ags = Some a → a ∈ keys ags.
Proof.
  intros (l1 & l2 & Hk & _)%findFreeAgent_first.
  rewrite Hk, elem_of_app, elem_of_cons. naive_solver.
Qed.

Lemma findFreeAgent_None ags :
  findFreeAgent ags = None ↔ ∀ k r, agents_get k ags = Some r → busy r = true.
Proof.
  unfold findFreeAgent. rewrite find_none_iff, Forall_forall. split.
  - intros Hall k r Hk. destruct (busy r) eqn:Hb; [done|].
    assert (k ∈ keys ags) as Hin by (apply agents_get_is_Some; eauto).
    specialize (Hall k Hin). apply not_true_iff_false in Hall.
    destruct Hall. apply is_free_spec. eauto.
  - intros Hall k _. apply not_true_iff_false.
    intros (r & Hr & Hb)%is_free_spec. specialize (Hall k r Hr). congruence.
Qed.

(** Once a registered agent has its flag cleared, the search cannot fail. *)
Lemma findFreeAgent_after_clear k ags :
  is_Some (agents_get k ags) → is_Some (findFreeAgent (agents_set_busy k false ags)).
Proof.
  intros [r Hr]. apply not_eq_None_Some. intros Hnone.
  rewrite findFreeAgent_None in Hnone.
  specialize (Hnone k (Agent (name r) false)).
  rewrite agents_get_set_busy, decide_True, Hr in Hnone by done.
  by specialize (Hnone eq_refl).
Qed.

Lemma includes_elem_of x q : includes x q = true ↔ x ∈ q.
Proof.
  induction q as [|y q IH]; simpl.
  { split; [done|]. by intros ?%elem_of_nil. }
  rewrite elem_of_cons. case_decide; [|rewrite IH]; tauto.
Qed.

Lemma includes_false x q : includes x q = false ↔ x ∉ q.
Proof. rewrite <-includes_elem_of. by destruct (includes x q). Qed.

(** [indexOf] is the 0-based position of the first occurrence. *)
Lemma indexOf_found x q :
  x ∈ q →
  ∃ i : nat, indexOf x q = Z.of_nat i ∧ q !! i = Some x ∧
             ∀ j : nat, (j < i)%nat → q !! j ≠ Some x.
Proof.
  induction q as [|y q IH]; [by intros ?%elem_of_nil|].
  rewrite elem_of_cons. intros Hin. simpl.
  destruct (decide (x = y)) as [->|Hne].
  - exists 0%nat. split_and!; [done|done|lia].
  - destruct IH as (i & Hi & Hl & Hfirst); [by destruct Hin|].
    exists (S i). rewrite Hi. rewrite decide_False by lia.
    split_and!; [lia|done|].
    intros [|j] ?; simpl; [congruence|]. apply Hfirst. lia.
Qed.

Lemma indexOf_absent x q : x ∉ q → indexOf x q = -1.
Proof.
  induction q as [|y q IH]; [done|].
  rewrite not_elem_of_cons. intros [? ?]. simpl.
  rewrite decide_False by done. rewrite IH by done. done.
Qed.

Lemma splice1_subseteq i q : splice1 i q ⊆ q.
Proof.
  revert i. induction q as [|y q IH]; intros i; simpl; [done|].
  destruct i; [intros x Hx; by apply list_elem_of_further|].
  intros x [->|Hx]%elem_of_cons; [apply list_elem_of_here|].
  by apply list_elem_of_further, (IH i).
Qed.

End primitives.

(** ** Running a handler: equations *)

Section running.
Context {A B : Type}.
Implicit Types (m : M A) (f : A → M B) (st : state).

Lemma run_bind m f st :
  (m ≫= f) st =
    (value (f (value m st)) (exec m st),
     exec (f (value m st)) (exec m st),
     output m st ++ output (f (value m st)) (exec m st)).
Proof.
  unfold mbind, M_bind, value, exec, output.
  destruct (m st) as [[a st1] o1]; simpl.
  by destruct (f a st1) as [[b st2] o2].
Qed.

Lemma exec_bind m f st : exec (m ≫= f) st = exec (f (value m st)) (exec m st).
Proof. unfold exec at 1. by rewrite run_bind. Qed.

Lemma output_bind m f st :
  output (m ≫= f) st = output m st ++ output (f (value m st)) (exec m st).
Proof. unfold output at 1. by rewrite run_bind. Qed.

Lemma value_bind m f st : value (m ≫= f) st = value (f (value m st)) (exec m st).
Proof. unfold value at 1. by rewrite run_bind. Qed.
End running.

(** A first statement whose run is known, followed by the rest. *)
Lemma run_seq {A B} (m : M A) (f : A → M B) st a st1 o1 :
  m st = (a, st1, o1) →
  (m ≫= f) st = let '(b, st2, o2) := f a st1 in (b, st2, o1 ++ o2).
Proof. intros Hm. unfold mbind, M_bind. by rewrite Hm. Qed.

Lemma after_exec st sid ev : after st (sid, ev) = exec (handle sid ev) st.
Proof.
  unfold after, step, exec. simpl. by destruct (handle sid ev st) as [[[] st'] out].
Qed.

Lemma emitted_output st sid ev : emitted st (sid, ev) = output (handle sid ev) st.
Proof.
  unfold emitted, step, output. simpl. by destruct (handle sid ev st) as [[[] st'] out].
Qed.

Section preservation.
Context (I : state → Prop).

Lemma preserves_bind {A B} (m : M A) (f : A → M B) :
  preserves I m → (∀ a, preserves I (f a)) → preserves I (m ≫= f).
Proof. intros Hm Hf st Hst. rewrite exec_bind. by apply Hf, Hm. Qed.

Lemma preserves_ret {A} (a : A) : preserves I (mret a).
Proof. by intros st. Qed.

Lemma preserves_skip : preserves I skip.
Proof. by intros st. Qed.

Lemma preserves_gets {A} (f : state → A) : preserves I (gets f).
Proof. by intros st. Qed.

Lemma preserves_emit d p : preserves I (emit d p).
Proof. by intros st. Qed.
End preservation.

Create HintDb store_ok.

Section store_ok_preserved.
Implicit Types (k a s sid : string).

Lemma truthy_ne v s : truthy v = Some s → s ≠ "".
Proof. by intros [_ ?]%truthy_Some. Qed.

Lemma store_ok_init : store_ok init.
Proof. split; simpl; constructor. Qed.

Lemma store_ok_set_busy k b : preserves store_ok (set_busy k b).
Proof.
  intros st [? ?]. split; simpl; by rewrite agents_keys_set_busy.
Qed.

Lemma store_ok_clear_busy_if_agent k : preserves store_ok (clear_busy_if_agent k).
Proof.
  apply preserves_bind; [apply preserves_gets|].
  intros [r|]; [apply store_ok_set_busy|apply preserves_skip].
Qed.

Lemma store_ok_with_pairings f : preserves store_ok (with_pairings f).
Proof. by intros st [? ?]. Qed.

Lemma store_ok_with_queue f : preserves store_ok (with_queue f).
Proof. by intros st [? ?]. Qed.

Lemma store_ok_set_pairing k v : preserves store_ok (set_pairing k v).
Proof. apply store_ok_with_pairings. Qed.

Lemma store_ok_set_pairing_received k v :
  preserves store_ok (set_pairing_received k v).
Proof. apply store_ok_with_pairings. Qed.

Lemma store_ok_delete_pairing k : preserves store_ok (delete_pairing k).
Proof. apply store_ok_with_pairings. Qed.

Lemma store_ok_delete_pairing_if_truthy k :
  preserves store_ok (delete_pairing_if_truthy k).
Proof.
  apply preserves_bind; [apply preserves_gets|].
  intros p. destruct (truthy p); [apply store_ok_delete_pairing|apply preserves_skip].
Qed.

Lemma store_ok_push x : preserves store_ok (push x).
Proof. apply store_ok_with_queue. Qed.

Lemma store_ok_splice i : preserves store_ok (with_queue (splice1 i)).
Proof. apply store_ok_with_queue. Qed.

Lemma store_ok_shift : preserves store_ok shift.
Proof.
  intros st [? ?]. unfold exec, shift.
  by destruct (waitingQueue st) as [|x rest] eqn:Hw.
Qed.

Lemma store_ok_register sid r :
  sid ≠ "" → preserves store_ok (with_agents (agents_set sid r)).
Proof.
  intros ? st [Hnd Hids]. split; simpl; rewrite agents_keys_set.
  - destruct (agents_get sid (agents st)) eqn:Hg; [done|].
    apply agents_get_None in Hg.
    apply NoDup_app. split_and!; [done| |apply NoDup_singleton].
    intros x Hx ->%list_elem_of_singleton. done.
  - destruct (agents_get sid (agents st)); [done|].
    apply Forall_app. split; [done|by constructor].
Qed.

Lemma store_ok_deregister sid : preserves store_ok (with_agents (agents_delete sid)).
Proof.
  intros st [Hnd Hids]. split; simpl; rewrite agents_keys_delete.
  - by apply NoDup_filter.
  - rewrite Forall_forall in Hids |- *.
    intros x [_ Hx]%list_elem_of_filter. by apply Hids.
Qed.

Lemma store_ok_offer_supplier_first s a :
  preserves store_ok (offer_supplier_first s a).
Proof.
  unfold offer_supplier_first.
  repeat (apply preserves_bind; [|intros ?]);
    auto using store_ok_set_busy, store_ok_set_pairing, preserves_emit.
Qed.

Lemma store_ok_offer_rejected_supplier s a :
  preserves store_ok (offer_rejected_supplier s a).
Proof.
  unfold offer_rejected_supplier.
  repeat (apply preserves_bind; [|intros ?]);
    auto using store_ok_set_busy, store_ok_set_pairing,
      store_ok_set_pairing_received, preserves_emit.
Qed.

Lemma store_ok_offer_agent_first s a :
  preserves store_ok (offer_agent_first s a).
Proof.
  unfold offer_agent_first.
  repeat (apply preserves_bind; [|intros ?]);
    auto using store_ok_set_busy, store_ok_set_pairing,
      store_ok_set_pairing_received, preserves_emit.
Qed.

Hint Resolve preserves_gets preserves_emit preserves_skip preserves_ret
  store_ok_set_busy store_ok_clear_busy_if_agent store_ok_set_pairing
  store_ok_set_pairing_received
  store_ok_delete_pairing store_ok_delete_pairing_if_truthy store_ok_push
  store_ok_splice store_ok_shift store_ok_register store_ok_deregister
  store_ok_offer_supplier_first store_ok_offer_rejected_supplier
  store_ok_offer_agent_first truthy_ne : store_ok.

Ltac preserves_store_ok :=
  repeat first
    [ by eauto with store_ok
    | apply preserves_bind; [|intros ?]
    | case_match ].

Lemma store_ok_teardown sid partnerId :
  preserves store_ok (end_call_teardown sid partnerId).
Proof. unfold end_call_teardown. preserves_store_ok. Qed.

(** Every handler keeps the stores well formed. *)
Lemma handle_store_ok sid ev :
  wf_event (sid, ev) → preserves store_ok (handle sid ev).
Proof.
  unfold wf_event. simpl. intros Hsid.
  destruct ev;
    unfold handle, relay, agent_register, supplier_call, agent_accept,
      agent_reject, end_call, end_call_promote, disconnect;
    pose proof store_ok_teardown;
    preserves_store_ok.
Qed.

Lemma reachable_store_ok st : reachable st → store_ok st.
Proof.
  induction 1 as [|st [sid ev] _ IH Hwf]; [apply store_ok_init|].
  rewrite after_exec. by apply handle_store_ok.
Qed.
End store_ok_preserved.

Lemma reachable_run_from st trace :
  reachable st → Forall wf_event trace → reachable (run st trace).
Proof.
  revert st. induction trace as [|se trace IH]; intros st Hst Hwf; simpl; [done|].
  apply Forall_cons in Hwf as [Hse Hwf]. apply IH; [|done]. by constructor.
Qed.

(** A trace of well-formed events, run from the empty stores, ends at rest
    in a reachable state. *)
Lemma reachable_run trace :
  bool_decide (Forall wf_event trace) = true → reachable (run init trace).
Proof.
  intros Hwf%bool_decide_eq_true. apply reachable_run_from; [constructor|done].
Qed.

(** ** The offer block *)

Lemma offer_supplier_first_run s a st :
  offer_supplier_first s a st =
    (tt,
     State (agents_set_busy a true (agents st)) (waitingQueue st)
           (<[a:=s]> (<[s:=a]> (pairings st))),
     [Msg a (IncomingCall s); Msg s (CallRequested a)]).
Proof. reflexivity. Qed.

Lemma offer_rejected_supplier_run s a st :
  offer_rejected_supplier s a st =
    (tt,
     State (agents_set_busy a true (agents st)) (waitingQueue st)
           (<[a:=s]> (assign_received s a (pairings st))),
     [Msg a (IncomingCall s); Msg s (CallRequested a)]).
Proof. reflexivity. Qed.

Lemma offer_agent_first_run s a st :
  offer_agent_first s a st =
    (tt,
     State (agents_set_busy a true (agents st)) (waitingQueue st)
           (assign_received s a (<[a:=s]> (pairings st))),
     [Msg a (IncomingCall s); Msg s (CallRequested a)]).
Proof. reflexivity. Qed.

Lemma assign_received_lookup (k v j : string) (m : gmap string string) :
  assign_received k v m !! j =
    if decide (k = "__proto__") then m !! j
    else if decide (k = j) then Some v else m !! j.
Proof.
  unfold assign_received. case_decide; [done|]. apply lookup_insert.
Qed.

Lemma assign_received_stored (k v : string) (m : gmap string string) :
  k ≠ "__proto__" → assign_received k v m = <[k:=v]> m.
Proof. intros Hk. unfold assign_received. by rewrite decide_False. Qed.

(** What an offer does to the stores, read back key by key. *)
Lemma offered_agent_busy a ags r :
  agents_get a ags = Some r →
  agents_get a (agents_set_busy a true ags) = Some (Agent (name r) true).
Proof. intros Hr. by rewrite agents_get_set_busy, decide_True, Hr. Qed.

Lemma offered_pairing_mutual (s a : string) (m : gmap string string) :
  <[a:=s]> (<[s:=a]> m) !! s = Some a ∧ <[a:=s]> (<[s:=a]> m) !! a = Some s.
Proof.
  split; [|by rewrite lookup_insert_eq].
  destruct (decide (a = s)) as [->|]; [by rewrite lookup_insert_eq|].
  by rewrite lookup_insert_ne, lookup_insert_eq.
Qed.

Lemma offered_pairing_mutual' (s a : string) (m : gmap string string) :
  <[s:=a]> (<[a:=s]> m) !! s = Some a ∧ <[s:=a]> (<[a:=s]> m) !! a = Some s.
Proof.
  split; [by rewrite lookup_insert_eq|].
  destruct (decide (s = a)) as [->|]; [by rewrite lookup_insert_eq|].
  by rewrite lookup_insert_ne, lookup_insert_eq.
Qed.

(** The same two reads when the supplier's key is any string: the agent's
    entry is always there, the supplier's unless its key is ["__proto__"]. *)
Lemma offered_received_supplier_first (s a : string) (m : gmap string string) :
  <[a:=s]> (assign_received s a m) !! a = Some s ∧
  (s ≠ "__proto__" → <[a:=s]> (assign_received s a m) !! s = Some a).
Proof.
  split; [by rewrite lookup_insert_eq|].
  intros Hs. rewrite assign_received_stored by done. apply offered_pairing_mutual.
Qed.

Lemma offered_received_agent_first (s a : string) (m : gmap string string) :
  assign_received s a (<[a:=s]> m) !! a = Some s ∧
  (s ≠ "__proto__" → assign_received s a (<[a:=s]> m) !! s = Some a).
Proof.
  split.
  - rewrite assign_received_lookup. case_decide; [by rewrite lookup_insert_eq|].
    case_decide; [by subst|]. by rewrite lookup_insert_eq.
  - intros Hs. rewrite assign_received_stored by done. apply offered_pairing_mutual'.
Qed.

Lemma offered_received_frame (s a v k : string) (m : gmap string string) :
  k ≠ s → assign_received s v m !! k = m !! k.
Proof.
  intros Hk. rewrite assign_received_lookup. case_decide; [done|].
  by rewrite decide_False.
Qed.

(** ** supplier-call *)

Lemma supplier_call_free_run st sid a :
  includes sid (waitingQueue st) = false →
  truthy (findFreeAgent (agents st)) = Some a →
  supplier_call sid st = offer_supplier_first sid a st.
Proof.
  intros Hq Hfree. unfold supplier_call.
  cbv [mbind M_bind mret M_ret gets]. rewrite Hq, Hfree.
  by destruct (offer_supplier_first sid a st) as [[[] st'] out].
Qed.

Lemma supplier_call_queued_run st sid :
  includes sid (waitingQueue st) = true →
  supplier_call sid st = (tt, st, [Msg sid (QueueStatus (indexOf sid (waitingQueue st) + 1))]).
Proof.
  intros Hq. unfold supplier_call, emit.
  cbv [mbind M_bind mret M_ret gets]. by rewrite Hq.
Qed.

(** With no free agent the caller is queued at the tail, whether or not it
    is a key of the pairing table, which is not read. *)
Lemma supplier_call_no_agent_run st sid :
  includes sid (waitingQueue st) = false →
  findFreeAgent (agents st) = None →
  supplier_call sid st =
    (tt, State (agents st) (waitingQueue st ++ [sid]) (pairings st),
     [Msg sid (QueueStatus (Z.of_nat (length (waitingQueue st ++ [sid]))))]).
Proof.
  intros Hq Hfree. unfold supplier_call, push, with_queue.
  cbv [mbind M_bind mret M_ret gets modify emit]. by rewrite Hq, Hfree.
Qed.

(** C6: a supplier that is not queued calls while some agent is free: the
    agent found is marked busy, the pairing table maps supplier and agent to
    each other, the agent is sent [incoming-call{supplierId}], the supplier
    is sent [call-requested{agentId}], and the queue is untouched. *)
Theorem supplier_call_offers_free_agent st sid a :
  reachable st →
  includes sid (waitingQueue st) = false →
  findFreeAgent (agents st) = Some a →
  let st' := after st (sid, SupplierCall) in
  (∃ r, agents_get a (agents st) = Some r ∧ busy r = false ∧
        agents_get a (agents st') = Some (Agent (name r) true)) ∧
  (∀ k, k ≠ a → agents_get k (agents st') = agents_get k (agents st)) ∧
  pairings st' !! sid = Some a ∧ pairings st' !! a = Some sid ∧
  (∀ k, k ≠ sid → k ≠ a → pairings st' !! k = pairings st !! k) ∧
  waitingQueue st' = waitingQueue st ∧
  includes sid (waitingQueue st') = false ∧
  emitted st (sid, SupplierCall) =
    [Msg a (IncomingCall sid); Msg sid (CallRequested a)].
Proof.
  intros Hreach Hq Hfree st'.
  assert (a ≠ "") as Ha.
  { apply reachable_store_ok in Hreach as [_ Hids].
    rewrite Forall_forall in Hids. by apply Hids, findFreeAgent_is_key. }
  assert (handle sid SupplierCall st = offer_supplier_first sid a st) as Hrun.
  { apply supplier_call_free_run; [done|]. rewrite Hfree. by apply truthy_nonempty. }
  subst st'. rewrite after_exec, emitted_output. unfold exec, output.
  rewrite Hrun, offer_supplier_first_run. simpl.
  destruct (findFreeAgent_free _ _ Hfree) as (r & Hr & Hb).
  split_and!; try done.
  - exists r. split_and!; [done|done|by apply offered_agent_busy].
  - intros k Hk. by rewrite agents_get_set_busy, decide_False.
  - apply offered_pairing_mutual.
  - apply offered_pairing_mutual.
  - intros k ? ?. by rewrite !lookup_insert_ne.
Qed.

Lemma supplier_call_offers_free_agent_witness :
  let st := run init [("A1", AgentRegister None)] in
  reachable st ∧
  includes "S1" (waitingQueue st) = false ∧
  findFreeAgent (agents st) = Some "A1" ∧
  pairings (after st ("S1", SupplierCall)) !! "S1" = Some "A1" ∧
  pairings (after st ("S1", SupplierCall)) !! "A1" = Some "S1" ∧
  waitingQueue (after st ("S1", SupplierCall)) = waitingQueue st ∧
  emitted st ("S1", SupplierCall) =
    [Msg "A1" (IncomingCall "S1"); Msg "S1" (CallRequested "A1")].
Proof.
  intros st.
  assert (reachable st) as Hreach by (apply reachable_run; vm_compute; reflexivity).
  destruct (supplier_call_offers_free_agent st "S1" "A1" Hreach)
    as (_ & _ & Hs & Ha & _ & Hq & _ & Hout); [reflexivity|reflexivity|].
  split_and!;
    [exact Hreach|reflexivity|reflexivity|exact Hs|exact Ha|exact Hq|exact Hout].
Defined.

(** C8: [supplier-call] from a supplier that is already queued changes none
    of the three stores and answers with [queue-status] carrying the 1-based
    position of the supplier's (first) queue entry. *)
Theorem supplier_call_idempotent_when_queued st sid :
  includes sid (waitingQueue st) = true →
  after st (sid, SupplierCall) = st ∧
  ∃ i : nat,
    emitted st (sid, SupplierCall) = [Msg sid (QueueStatus (Z.of_nat i + 1))] ∧
    waitingQueue st !! i = Some sid ∧
    (∀ j : nat, (j < i)%nat → waitingQueue st !! j ≠ Some sid) ∧
    emitted (after st (sid, SupplierCall)) (sid, SupplierCall) =
      emitted st (sid, SupplierCall).
Proof.
  intros Hq.
  assert (after st (sid, SupplierCall) = st) as Hsame.
  { rewrite after_exec. unfold exec. simpl. by rewrite supplier_call_queued_run. }
  split; [done|].
  destruct (indexOf_found sid (waitingQueue st)) as (i & Hi & Hl & Hfirst).
  { by apply includes_elem_of. }
  exists i. rewrite Hsame. split_and!; try done.
  rewrite emitted_output. unfold output. simpl.
  by rewrite supplier_call_queued_run, Hi.
Qed.

Lemma supplier_call_idempotent_when_queued_witness :
  let st := run init [("S1", SupplierCall); ("S2", SupplierCall)] in
  after st ("S2", SupplierCall) = st ∧
  ∃ i : nat,
    emitted st ("S2", SupplierCall) = [Msg "S2" (QueueStatus (Z.of_nat i + 1))] ∧
    waitingQueue st !! i = Some "S2" ∧
    (∀ j : nat, (j < i)%nat → waitingQueue st !! j ≠ Some "S2") ∧
    emitted (after st ("S2", SupplierCall)) ("S2", SupplierCall) =
      emitted st ("S2", SupplierCall).
Proof.
  intros st. apply (supplier_call_idempotent_when_queued st "S2"). reflexivity.
Defined.

(** ** agent-accept *)

(** C9: [agent-accept] from a socket that is not a registered agent returns
    at once: the three stores are unchanged and nothing is emitted. *)
Theorem agent_accept_from_non_agent_is_noop st sid supplierId :
  agents_get sid (agents st) = None →
  after st (sid, AgentAccept supplierId) = st ∧
  emitted st (sid, AgentAccept supplierId) = [].
Proof.
  intros Hnone. rewrite after_exec, emitted_output. unfold exec, output. simpl.
  unfold agent_accept. cbv [mbind M_bind gets skip mret M_ret].
  by rewrite Hnone.
Qed.

Lemma agent_accept_from_non_agent_is_noop_witness :
  let st := run init [("A1", AgentRegister None); ("S1", SupplierCall)] in
  after st ("S2", AgentAccept "S1") = st ∧ emitted st ("S2", AgentAccept "S1") = [].
Proof.
  intros st. apply (agent_accept_from_non_agent_is_noop st "S2" "S1"). reflexivity.
Defined.

(** ** end-call *)

Lemma state_eta st : State (agents st) (waitingQueue st) (pairings st) = st.
Proof. by destruct st. Qed.

Lemma agents_set_busy_absent k b ags :
  agents_get k ags = None → agents_set_busy k b ags = ags.
Proof.
  induction ags as [|[k0 r0] rest IH]; simpl; [done|].
  case_decide; [done|]. intros Hrest. by rewrite IH.
Qed.

Lemma clear_busy_if_agent_run k st :
  clear_busy_if_agent k st =
    (tt, State (agents_set_busy k false (agents st)) (waitingQueue st) (pairings st), []).
Proof.
  unfold clear_busy_if_agent. cbv [mbind M_bind gets].
  destruct (agents_get k (agents st)) eqn:Hk; [done|].
  rewrite agents_set_busy_absent by done. by rewrite state_eta.
Qed.

Lemma delete_pairing_if_truthy_run k st :
  delete_pairing_if_truthy k st =
    (tt, State (agents st) (waitingQueue st) (delete_truthy k (pairings st)), []).
Proof.
  unfold delete_pairing_if_truthy, delete_pairing, with_pairings, skip, delete_truthy.
  cbv [mbind M_bind mret M_ret gets modify].
  destruct (truthy (pairings st !! k)); [done|]. by rewrite state_eta.
Qed.

Lemma delete_truthy_lookup (k j : string) (m : gmap string string) :
  delete_truthy k m !! j =
    if decide (j = k) then kept_if_empty (m !! j) else m !! j.
Proof.
  unfold delete_truthy, truthy, kept_if_empty.
  destruct (decide (j = k)) as [->|Hne].
  - destruct (m !! k) as [v|] eqn:Hk; [|by rewrite Hk].
    destruct (decide (v = "")); [by rewrite Hk|apply lookup_delete_eq].
  - destruct (m !! k) as [v|]; [|done].
    destruct (decide (v = "")); [done|]. by rewrite lookup_delete_ne.
Qed.

Lemma delete_truthy_delete (k : string) (m : gmap string string) :
  (∀ v, m !! k = Some v → v ≠ "") → delete_truthy k m = delete k m.
Proof.
  intros Hv. unfold delete_truthy.
  destruct (m !! k) as [v|] eqn:Hk.
  - rewrite truthy_nonempty; [done|by apply Hv].
  - simpl. by rewrite delete_id.
Qed.

Lemma kept_if_empty_idem o : kept_if_empty (kept_if_empty o) = kept_if_empty o.
Proof.
  destruct o as [v|]; simpl; [|done].
  destruct (decide (v = "")) as [->|]; [|done]. reflexivity.
Qed.

Lemma end_call_teardown_run st sid partnerId :
  end_call_teardown sid partnerId st =
    (tt,
     State (agents_set_busy partnerId false (agents_set_busy sid false (agents st)))
           (waitingQueue st)
           (delete_truthy partnerId (delete_truthy sid (pairings st))),
     [Msg partnerId (CallEnded sid)]).
Proof.
  unfold end_call_teardown.
  rewrite (run_seq _ _ _ _ _ _ (clear_busy_if_agent_run sid st)).
  rewrite (run_seq _ _ _ _ _ _ (clear_busy_if_agent_run partnerId _)). simpl.
  rewrite (run_seq _ _ _ _ _ _ (delete_pairing_if_truthy_run sid _)). simpl.
  by rewrite (run_seq _ _ _ _ _ _ (delete_pairing_if_truthy_run partnerId _)).
Qed.

Lemma end_call_promote_run st a s rest :
  truthy (findFreeAgent (agents st)) = Some a →
  waitingQueue st = s :: rest →
  s ≠ "" →
  end_call_promote st = offer_agent_first s a (State (agents st) rest (pairings st)).
Proof.
  intros Hfree Hq Hs. unfold end_call_promote, shift.
  cbv [mbind M_bind mret M_ret gets]. rewrite Hfree, Hq. simpl.
  rewrite Hq, truthy_nonempty by done.
  by destruct (offer_agent_first s a _) as [[[] st2] o2].
Qed.

Lemma end_call_promote_drops_empty st a rest :
  truthy (findFreeAgent (agents st)) = Some a →
  waitingQueue st = "" :: rest →
  end_call_promote st = (tt, State (agents st) rest (pairings st), []).
Proof.
  intros Hfree Hq. unfold end_call_promote, shift, skip.
  cbv [mbind M_bind mret M_ret gets]. rewrite Hfree, Hq. simpl.
  by rewrite Hq.
Qed.

Lemma end_call_promote_idle st :
  findFreeAgent (agents st) = None ∨ waitingQueue st = [] →
  end_call_promote st = (tt, st, []).
Proof.
  intros Hidle. unfold end_call_promote, shift, skip.
  cbv [mbind M_bind mret M_ret gets].
  destruct Hidle as [-> | ->]; [done|].
  destruct (truthy _); [|done]. by rewrite decide_False by (simpl; lia).
Qed.

(** C7, as the code has it: after the teardown of an [end-call], if an
    agent is free and the queue is not empty, the queue front, and only it,
    is taken off the queue.  If the front is not the empty string it is
    offered to that agent: the agent is marked busy, its entry names the
    supplier, the supplier's entry names the agent (for every id but
    ["__proto__"]), the agent is sent [incoming-call] and the supplier
    [call-requested]; no other entry is written and the rest of the queue
    stays queued.  If the front is the empty string, the test on line 117
    fails: the front is dropped, nobody is paired and nothing more is
    emitted. *)
Theorem end_call_promotion_pops_front st sid partnerId a s rest :
  reachable st →
  findFreeAgent (agents (torn_down st sid partnerId)) = Some a →
  waitingQueue (torn_down st sid partnerId) = s :: rest →
  let st1 := torn_down st sid partnerId in
  let st2 := after st (sid, EndCall partnerId) in
  waitingQueue st2 = rest ∧
  (s ≠ "" →
   (∃ r, agents_get a (agents st1) = Some r ∧ busy r = false ∧
         agents_get a (agents st2) = Some (Agent (name r) true)) ∧
   (∀ k, k ≠ a → agents_get k (agents st2) = agents_get k (agents st1)) ∧
   pairings st2 !! a = Some s ∧
   (s ≠ "__proto__" → pairings st2 !! s = Some a) ∧
   (∀ k, k ≠ a → k ≠ s → pairings st2 !! k = pairings st1 !! k) ∧
   emitted st (sid, EndCall partnerId) =
     [Msg partnerId (CallEnded sid); Msg a (IncomingCall s);
      Msg s (CallRequested a)]) ∧
  (s = "" →
   agents st2 = agents st1 ∧ pairings st2 = pairings st1 ∧
   emitted st (sid, EndCall partnerId) = [Msg partnerId (CallEnded sid)]).
Proof.
  intros Hreach Hfree Hq st1 st2.
  pose proof (reachable_store_ok _ Hreach) as Hok.
  assert (store_ok st1) as Hok1 by (by apply store_ok_teardown).
  assert (a ≠ "") as Ha.
  { destruct Hok1 as [_ Hids]. rewrite Forall_forall in Hids.
    by apply Hids, findFreeAgent_is_key. }
  assert (truthy (findFreeAgent (agents st1)) = Some a) as Hfree'.
  { fold st1 in Hfree. rewrite Hfree. by apply truthy_nonempty. }
  assert (output (end_call_teardown sid partnerId) st =
            [Msg partnerId (CallEnded sid)]) as Hout.
  { unfold output. by rewrite end_call_teardown_run. }
  fold st1 in Hq.
  assert (st2 = exec end_call_promote st1) as Hst2.
  { unfold st2. rewrite after_exec. simpl. unfold end_call. by rewrite exec_bind. }
  assert (emitted st (sid, EndCall partnerId) =
            Msg partnerId (CallEnded sid) :: output end_call_promote st1) as Hemit.
  { rewrite emitted_output. simpl. unfold end_call. by rewrite output_bind, Hout. }
  destruct (decide (s = "")) as [->|Hs].
  - rewrite Hst2, Hemit. unfold exec, output.
    rewrite (end_call_promote_drops_empty st1 a rest) by done. simpl.
    by split_and!.
  - destruct (findFreeAgent_free _ _ Hfree) as (r & Hr & Hb). fold st1 in Hr.
    rewrite Hst2, Hemit. unfold exec, output.
    rewrite (end_call_promote_run st1 a s rest), offer_agent_first_run by done.
    simpl. split_and!; [done| |done]. intros _. split_and!; try done.
    + exists r. split_and!; [done|done|by apply offered_agent_busy].
    + intros k Hk. by rewrite agents_get_set_busy, decide_False.
    + apply offered_received_agent_first.
    + apply offered_received_agent_first.
    + intros k ? ?. rewrite (offered_received_frame s a) by done.
      by rewrite lookup_insert_ne.
Qed.

Lemma end_call_promotion_pops_front_witness :
  let st := run init [("A1", AgentRegister None); ("S1", SupplierCall);
                      ("S2", SupplierCall)] in
  reachable st ∧
  findFreeAgent (agents (torn_down st "A1" "S1")) = Some "A1" ∧
  waitingQueue (torn_down st "A1" "S1") = ["S2"] ∧
  waitingQueue (after st ("A1", EndCall "S1")) = [] ∧
  pairings (after st ("A1", EndCall "S1")) !! "A1" = Some "S2" ∧
  pairings (after st ("A1", EndCall "S1")) !! "S2" = Some "A1" ∧
  emitted st ("A1", EndCall "S1") =
    [Msg "S1" (CallEnded "A1"); Msg "A1" (IncomingCall "S2");
     Msg "S2" (CallRequested "A1")].
Proof.
  intros st.
  assert (reachable st) as Hreach by (apply reachable_run; vm_compute; reflexivity).
  destruct (end_call_promotion_pops_front st "A1" "S1" "A1" "S2" [] Hreach)
    as (Hq & Hpaired & _); [reflexivity|reflexivity|].
  destruct Hpaired as (_ & _ & Ha & Hs & _ & Hout); [discriminate|].
  split_and!; [exact Hreach|reflexivity|reflexivity|exact Hq|exact Ha| |exact Hout].
  apply Hs. discriminate.
Defined.

(** C7 as stated fails: a socket that is not an agent sends
    [agent-reject] with an empty [supplierId] while no agent is free, which
    queues the empty string; A1 registers and sends [end-call].  After the
    teardown A1 is free and the queue is not empty, the front is popped, and
    nobody is paired or notified. *)
Lemma end_call_pops_empty_front_pairs_nobody :
  let st := run init [("S9", AgentReject ""); ("A1", AgentRegister None)] in
  reachable st ∧
  findFreeAgent (agents (torn_down st "A1" "S9")) = Some "A1" ∧
  waitingQueue (torn_down st "A1" "S9") = [""] ∧
  waitingQueue (after st ("A1", EndCall "S9")) = [] ∧
  pairings (after st ("A1", EndCall "S9")) = ∅ ∧
  busy <$> agents_get "A1" (agents (after st ("A1", EndCall "S9"))) = Some false ∧
  emitted st ("A1", EndCall "S9") = [Msg "S9" (CallEnded "A1")].
Proof.
  intros st. split; [apply reachable_run; vm_compute; reflexivity|].
  split_and!; vm_compute; reflexivity.
Qed.

(** C10, as the code has it: [end-call{partnerId}] never looks at who is
    paired with whom.  For any caller and any [partnerId], in any state, the
    teardown clears the busy flag of the caller and of [partnerId] wherever
    they are registered agents, deletes the pairing entry keyed by the
    caller and the one keyed by [partnerId] when the value stored there is
    truthy, leaves an entry that holds the empty string in place, leaves
    every other record and entry alone, and emits [call-ended{by: caller}]
    to [partnerId]; the handler then runs the promotion on the stores so
    obtained. *)
Theorem end_call_teardown_deletes_truthy_entries st sid partnerId :
  let st1 := torn_down st sid partnerId in
  (∀ k, agents_get k (agents st1) =
          if decide (k = sid ∨ k = partnerId)
          then (λ r, Agent (name r) false) <$> agents_get k (agents st)
          else agents_get k (agents st)) ∧
  keys (agents st1) = keys (agents st) ∧
  (∀ k, pairings st1 !! k =
          if decide (k = sid ∨ k = partnerId)
          then match pairings st !! k with
               | Some v => if decide (v = "") then Some v else None
               | None => None
               end
          else pairings st !! k) ∧
  waitingQueue st1 = waitingQueue st ∧
  after st (sid, EndCall partnerId) = exec end_call_promote st1 ∧
  emitted st (sid, EndCall partnerId) =
    Msg partnerId (CallEnded sid) :: output end_call_promote st1 ∧
  (waitingQueue st = [] →
   after st (sid, EndCall partnerId) = st1 ∧
   emitted st (sid, EndCall partnerId) = [Msg partnerId (CallEnded sid)]).
Proof.
  intros st1.
  pose proof (end_call_teardown_run st sid partnerId) as Hrun.
  assert (output (end_call_teardown sid partnerId) st =
            [Msg partnerId (CallEnded sid)]) as Hout.
  { unfold output. by rewrite Hrun. }
  assert (waitingQueue st1 = waitingQueue st) as Hq.
  { unfold st1, torn_down, exec. by rewrite Hrun. }
  assert (after st (sid, EndCall partnerId) = exec end_call_promote st1) as Hafter.
  { rewrite after_exec. simpl. unfold end_call. by rewrite exec_bind. }
  assert (emitted st (sid, EndCall partnerId) =
            Msg partnerId (CallEnded sid) :: output end_call_promote st1) as Hemit.
  { rewrite emitted_output. simpl. unfold end_call. by rewrite output_bind, Hout. }
  split_and!; try done.
  - intros k. unfold st1, torn_down, exec. rewrite Hrun. simpl.
    rewrite !agents_get_set_busy.
    destruct (decide (k = partnerId)) as [->|Hp].
    + rewrite (decide_True (P := _ ∨ _)) by auto.
      destruct (decide (partnerId = sid)) as [->|]; [|done].
      by destruct (agents_get sid (agents st)).
    + destruct (decide (k = sid)) as [->|Hs].
      * by rewrite (decide_True (P := _ ∨ _)) by auto.
      * rewrite (decide_False (P := _ ∨ _)); [done|]. by intros [?|?].
  - unfold st1, torn_down, exec. rewrite Hrun. simpl.
    by rewrite !agents_keys_set_busy.
  - intros k. unfold st1, torn_down, exec. rewrite Hrun. simpl.
    rewrite !delete_truthy_lookup. fold (kept_if_empty (pairings st !! k)).
    destruct (decide (k = partnerId)) as [->|Hp].
    + rewrite (decide_True (P := _ ∨ _)) by auto.
      destruct (decide (partnerId = sid)) as [->|]; [|done].
      apply kept_if_empty_idem.
    + destruct (decide (k = sid)) as [->|Hs].
      * by rewrite (decide_True (P := _ ∨ _)) by auto.
      * rewrite (decide_False (P := _ ∨ _)); [done|]. by intros [?|?].
  - intros Hempty. rewrite Hafter, Hemit. unfold exec, output.
    rewrite end_call_promote_idle by (right; congruence). done.
Qed.

(** C10 as stated fails: A1 registers and sends [agent-accept] with an empty
    [supplierId], which stores the empty string under A1; S1 then sends
    [end-call{partnerId: A1}].  The entry keyed by [partnerId] is present and
    is not deleted. *)
Lemma end_call_keeps_empty_entry :
  let st := run init [("A1", AgentRegister None); ("A1", AgentAccept "")] in
  reachable st ∧
  pairings st !! "A1" = Some "" ∧
  pairings (after st ("S1", EndCall "A1")) !! "A1" = Some "" ∧
  emitted st ("S1", EndCall "A1") = [Msg "A1" (CallEnded "S1")].
Proof.
  intros st. split; [apply reachable_run; vm_compute; reflexivity|].
  split_and!; vm_compute; reflexivity.
Qed.

(** ** agent-reject *)

(** A registered agent that rejects is itself free when the search runs, so
    the search succeeds and the queue branch is never taken. *)
Lemma agent_reject_by_agent_run st sid supplierId :
  reachable st →
  is_Some (agents_get sid (agents st)) →
  ∃ a, findFreeAgent (agents_set_busy sid false (agents st)) = Some a ∧
       agent_reject sid supplierId st =
         offer_rejected_supplier supplierId a
           (State (agents_set_busy sid false (agents st)) (waitingQueue st) (pairings st)).
Proof.
  intros Hreach Hsid.
  destruct (findFreeAgent_after_clear sid (agents st) Hsid) as [a Ha].
  exists a. split; [done|].
  assert (a ≠ "") as Hne.
  { apply reachable_store_ok in Hreach as [_ Hids].
    rewrite Forall_forall in Hids. apply Hids.
    rewrite <-(agents_keys_set_busy sid false). by apply findFreeAgent_is_key. }
  unfold agent_reject.
  rewrite (run_seq _ _ _ _ _ _ (clear_busy_if_agent_run sid st)).
  cbv [mbind M_bind gets]. simpl. rewrite Ha, truthy_nonempty by done.
  by destruct (offer_rejected_supplier supplierId a _) as [[[] st2] o2].
Qed.

Lemma agent_reject_by_agent_keeps_queue st sid supplierId :
  reachable st →
  is_Some (agents_get sid (agents st)) →
  waitingQueue (after st (sid, AgentReject supplierId)) = waitingQueue st.
Proof.
  intros Hreach Hsid.
  destruct (agent_reject_by_agent_run st sid supplierId Hreach Hsid) as (a & _ & Hrun).
  rewrite after_exec. unfold exec. simpl.
  by rewrite Hrun, offer_rejected_supplier_run.
Qed.

(** X24: when the agent found by [agent-reject] is not the rejecting one and
    the [supplierId] is not the rejecting agent's own id, the rejecting
    agent is left idle with its own pairing entry untouched, and the
    supplier's entry, for every [supplierId] but ["__proto__"], now names
    the agent found. *)
Lemma agent_reject_keeps_own_entry st sid supplierId a :
  reachable st →
  is_Some (agents_get sid (agents st)) →
  findFreeAgent (agents_set_busy sid false (agents st)) = Some a →
  a ≠ sid → supplierId ≠ sid →
  let st' := after st (sid, AgentReject supplierId) in
  busy <$> agents_get sid (agents st') = Some false ∧
  pairings st' !! sid = pairings st !! sid ∧
  (supplierId ≠ "__proto__" → pairings st' !! supplierId = Some a).
Proof.
  intros Hreach Hsid Ha Hne Hsup st'.
  destruct (agent_reject_by_agent_run st sid supplierId Hreach Hsid) as (a' & Ha' & Hrun).
  assert (a' = a) as -> by congruence.
  subst st'. rewrite after_exec. unfold exec. simpl.
  rewrite Hrun, offer_rejected_supplier_run. simpl. split_and!.
  - rewrite !agents_get_set_busy, decide_False, decide_True by done.
    destruct Hsid as [r ->]. done.
  - rewrite lookup_insert_ne by done. by apply offered_received_frame.
  - apply offered_received_supplier_first.
Qed.

(** C2: A1 is the only registered agent and rejects S1.  The handler clears
    A1's flag before searching, so the search returns A1 itself: S1 is
    offered to A1 again, the queue stays empty and no [queue-status] is
    sent. *)
Theorem reject_by_sole_agent_reoffers_same_agent :
  let st := run init sole_agent_offered in
  reachable st ∧ keys (agents st) = ["A1"] ∧ pairings st !! "S1" = Some "A1" ∧
  emitted st ("A1", AgentReject "S1") =
    [Msg "A1" (IncomingCall "S1"); Msg "S1" (CallRequested "A1")] ∧
  waitingQueue (after st ("A1", AgentReject "S1")) = [] ∧
  after st ("A1", AgentReject "S1") = st.
Proof.
  intros st. split; [apply reachable_run; vm_compute; reflexivity|].
  split_and!; vm_compute; reflexivity.
Qed.

(** C1: A2 registers before A1 and is free again when A1 rejects S1.  S1 is
    offered to A2 while A1's own entry is left in place: at rest
    [pairings[A1] = S1] but [pairings[S1] = A2]. *)
Theorem reject_leaves_one_sided_pairing :
  let st := run init reject_with_earlier_agent_free in
  reachable st ∧
  pairings st !! "A1" = Some "S1" ∧ pairings st !! "S1" = Some "A2" ∧
  ¬ pairing_symmetric st.
Proof.
  intros st. split; [apply reachable_run; vm_compute; reflexivity|].
  assert (pairings st !! "A1" = Some "S1") as H1 by (vm_compute; reflexivity).
  assert (pairings st !! "S1" = Some "A2") as H2 by (vm_compute; reflexivity).
  split_and!; [done|done|].
  intros Hsym. specialize (Hsym "A1" "S1" H1). rewrite H2 in Hsym. discriminate.
Qed.

(** C3: on the same trace A1 is at rest with [busy = false] while A1 is
    still a key of the pairing table. *)
Theorem reject_leaves_idle_agent_paired :
  let st := run init reject_with_earlier_agent_free in
  reachable st ∧
  busy <$> agents_get "A1" (agents st) = Some false ∧
  is_Some (pairings st !! "A1") ∧
  ¬ busy_iff_paired st.
Proof.
  intros st. split; [apply reachable_run; vm_compute; reflexivity|].
  assert (agents_get "A1" (agents st) = Some (Agent "Agent-A1" false)) as H1
    by (vm_compute; reflexivity).
  assert (pairings st !! "A1" = Some "S1") as H2 by (vm_compute; reflexivity).
  split_and!; [by rewrite H1|by rewrite H2|].
  intros Hiff. destruct (Hiff "A1" _ H1) as [_ Hbusy].
  rewrite H2 in Hbusy. by specialize (Hbusy (mk_is_Some _ _ eq_refl)).
Qed.

(** C4: S1 is paired with the only agent and sends [supplier-call] again.
    The handler tests queue membership only, finds no free agent and queues
    S1: at rest S1 is in the queue and a key of the pairing table. *)
Theorem paired_supplier_is_queued :
  let st := run init paired_supplier_calls_again in
  reachable st ∧
  "S1" ∈ waitingQueue st ∧ pairings st !! "S1" = Some "A1" ∧
  ¬ queue_pairing_exclusive st.
Proof.
  intros st. split; [apply reachable_run; vm_compute; reflexivity|].
  assert (waitingQueue st = ["S1"]) as H1 by (vm_compute; reflexivity).
  assert (pairings st !! "S1" = Some "A1") as H2 by (vm_compute; reflexivity).
  assert ("S1" ∈ waitingQueue st) as Hin by (rewrite H1; apply list_elem_of_here).
  split_and!; [done|done|].
  intros Hex. specialize (Hex "S1" Hin). rewrite H2 in Hex. discriminate.
Qed.

(** ** disconnect *)

Lemma splice1_NoDup i q : NoDup q → NoDup (splice1 i q).
Proof.
  revert i. induction q as [|y q IH]; intros i Hnd; simpl; [done|].
  apply NoDup_cons in Hnd as [Hy Hq]. destruct i; [done|].
  apply NoDup_cons. split; [|by apply IH].
  intros Hin. by apply Hy, (splice1_subseteq i).
Qed.

Lemma push_NoDup x q : includes x q = false → NoDup q → NoDup (q ++ [x]).
Proof.
  intros Hx%includes_false Hq.
  apply NoDup_app. split_and!; [done| |apply NoDup_singleton].
  by intros y Hy ->%list_elem_of_singleton.
Qed.

(** X19: every handler but the agent branch of [disconnect] keeps the queue free
    of duplicates: [supplier-call] and [agent-reject] test membership before
    they push, the others only remove entries. *)
Lemma queue_unique_step st sid ev :
  queue_unique st →
  (ev = Disconnect → agents_get sid (agents st) = None) →
  queue_unique (after st (sid, ev)).
Proof.
  unfold queue_unique. intros Hq Hev. destruct st as [ags q p]. simpl in *.
  destruct ev; unfold after, step, handle; simpl;
    unfold supplier_call, agent_register, agent_accept, agent_reject, end_call,
      end_call_teardown, end_call_promote, disconnect, relay,
      clear_busy_if_agent, delete_pairing_if_truthy, offer_supplier_first,
      offer_rejected_supplier, offer_agent_first, set_busy, set_pairing,
      set_pairing_received, delete_pairing, push, shift,
      with_agents, with_queue, with_pairings, skip;
    cbv [mbind M_bind mret M_ret gets modify emit]; simpl;
    try rewrite (Hev eq_refl);
    repeat case_match; simplify_eq/=; try done;
    eauto using splice1_NoDup, push_NoDup.
  all: by apply NoDup_cons in Hq as [_ ?].
Qed.

(** C5: the agent of that supplier then disconnects.  The disconnect
    handler pushes the supplier without the membership test that
    [agent-reject] makes: the queue holds S1 twice. *)
Theorem disconnect_duplicates_queue_entry :
  let st := run init agent_leaves_queued_supplier in
  reachable st ∧ waitingQueue st = ["S1"; "S1"] ∧ ¬ queue_unique st.
Proof.
  intros st. split; [apply reachable_run; vm_compute; reflexivity|].
  assert (waitingQueue st = ["S1"; "S1"]) as H1 by (vm_compute; reflexivity).
  split; [done|]. unfold queue_unique. rewrite H1. intros Hnd.
  apply NoDup_cons in Hnd as [Hnotin _]. apply Hnotin, list_elem_of_here.
Qed.

(** * Further properties of the handlers *)

Ltac run_handler :=
  unfold after, emitted, step, handle; simpl;
  unfold supplier_call, agent_register, agent_accept, agent_reject, end_call,
    end_call_teardown, end_call_promote, disconnect, relay,
    clear_busy_if_agent, delete_pairing_if_truthy, offer_supplier_first,
    offer_rejected_supplier, offer_agent_first, set_busy, set_pairing,
    set_pairing_received, delete_pairing, push, shift,
    with_agents, with_queue, with_pairings, skip;
  cbv [mbind M_bind mret M_ret gets modify emit]; simpl.

(** ** findFreeAgent *)

(** X3: [findFreeAgent] returns the first key, in insertion order, whose
    record is not busy: every key before it is registered and busy.  It
    returns nothing exactly when every record is busy. *)
Theorem findFreeAgent_characterised ags :
  match findFreeAgent ags with
  | Some a =>
      ∃ l1 l2 r, keys ags = l1 ++ a :: l2 ∧
                 agents_get a ags = Some r ∧ busy r = false ∧
                 ∀ k, k ∈ l1 → ∃ r', agents_get k ags = Some r' ∧ busy r' = true
  | None => ∀ k r, agents_get k ags = Some r → busy r = true
  end.
Proof.
  destruct (findFreeAgent ags) as [a|] eqn:Hfind.
  - apply findFreeAgent_first in Hfind as (l1 & l2 & Hkeys & Hfree & Hbefore).
    apply is_free_spec in Hfree as (r & Hr & Hb).
    exists l1, l2, r. split_and!; [done..|].
    intros k Hk. rewrite Forall_forall in Hbefore. specialize (Hbefore k Hk).
    assert (is_Some (agents_get k ags)) as [r' Hr'].
    { apply agents_get_is_Some. rewrite Hkeys, elem_of_app. by left. }
    exists r'. split; [done|]. destruct (busy r') eqn:Hb'; [done|].
    apply not_true_iff_false in Hbefore. destruct Hbefore.
    apply is_free_spec. eauto.
  - by apply findFreeAgent_None.
Qed.

(** ** agent-register *)

Lemma display_name_nonempty nm sid : display_name nm sid ≠ "".
Proof.
  unfold display_name. destruct (truthy nm) as [n|] eqn:Hn; [by eapply truthy_ne|].
  simpl. discriminate.
Qed.

(** X1: [agent-register] stores [{name, busy: false}] under the socket id,
    in place when the id is already registered and as the last key
    otherwise; no other record, the queue and the pairing table are not
    touched, so a queued supplier stays queued and a paired agent that
    registers again keeps its pairing entry; the registrant is sent
    [agent-registered] with the stored name and the current queue length. *)
Theorem agent_register_effect st sid nm :
  let st' := after st (sid, AgentRegister nm) in
  agents_get sid (agents st') = Some (Agent (display_name nm sid) false) ∧
  (∀ k, k ≠ sid → agents_get k (agents st') = agents_get k (agents st)) ∧
  keys (agents st') =
    match agents_get sid (agents st) with
    | Some _ => keys (agents st)
    | None => keys (agents st) ++ [sid]
    end ∧
  waitingQueue st' = waitingQueue st ∧
  pairings st' = pairings st ∧
  emitted st (sid, AgentRegister nm) =
    [Msg sid (AgentRegistered (display_name nm sid)
                              (Z.of_nat (length (waitingQueue st))))].
Proof.
  run_handler. rewrite !agents_get_set, decide_True by done. simpl.
  split_and!; try done.
  - intros k Hk. by rewrite agents_get_set, decide_False.
  - apply agents_keys_set.
Qed.

(** ** Names of registered agents *)

Section names_ok_preserved.
Implicit Types (k sid : string) (ags : list (string * agent)).

Lemma names_set_busy k b ags :
  Forall (λ p, name p.2 ≠ "") ags → Forall (λ p, name p.2 ≠ "") (agents_set_busy k b ags).
Proof.
  induction 1 as [|[k0 r0] rest Hr Hrest IH]; simpl; [constructor|].
  case_decide; constructor; done.
Qed.

Lemma names_set k r ags :
  name r ≠ "" →
  Forall (λ p, name p.2 ≠ "") ags → Forall (λ p, name p.2 ≠ "") (agents_set k r ags).
Proof.
  intros Hname. induction 1 as [|[k0 r0] rest Hr Hrest IH]; simpl.
  - by repeat constructor.
  - case_decide; constructor; done.
Qed.

Lemma names_delete k ags :
  Forall (λ p, name p.2 ≠ "") ags → Forall (λ p, name p.2 ≠ "") (agents_delete k ags).
Proof.
  induction 1 as [|[k0 r0] rest Hr Hrest IH]; simpl; [constructor|].
  case_decide; [done|by constructor].
Qed.

Lemma names_ok_lookup ags k r :
  Forall (λ p, name p.2 ≠ "") ags → agents_get k ags = Some r → name r ≠ "".
Proof.
  induction 1 as [|[k0 r0] rest Hr Hrest IH]; simpl; [done|].
  case_decide; [by intros [= <-]|done].
Qed.

Lemma names_ok_step st sid ev : names_ok st → names_ok (after st (sid, ev)).
Proof.
  unfold names_ok. intros Hok. destruct st as [ags q p]. simpl in *.
  pose proof (display_name_nonempty) as Hdn.
  destruct ev; run_handler;
    repeat case_match; simplify_eq/=;
    eauto 10 using names_set_busy, names_set, names_delete.
Qed.

Lemma reachable_names_ok st : reachable st → names_ok st.
Proof.
  induction 1 as [|st [sid ev] _ IH _]; [constructor|]. by apply names_ok_step.
Qed.
End names_ok_preserved.

(** X2: in every reachable state each registered agent has a non-empty
    display name: [agent-register] stores the given name when it is truthy
    and ["Agent-"] followed by the first five characters of the socket id
    otherwise, and no other handler writes a name. *)
Theorem registered_names_nonempty st k r :
  reachable st → agents_get k (agents st) = Some r → name r ≠ "".
Proof.
  intros Hreach Hk. eapply names_ok_lookup; [|done].
  by apply reachable_names_ok.
Qed.

Lemma registered_names_nonempty_witness :
  let st := run init [("Xy3_abcdefgh", AgentRegister (Some "")); ("S1", SupplierCall)] in
  reachable st ∧
  agents_get "Xy3_abcdefgh" (agents st) = Some (Agent "Agent-Xy3_a" true) ∧
  "Agent-Xy3_a" ≠ "".
Proof.
  intros st.
  assert (reachable st) as Hreach by (apply reachable_run; vm_compute; reflexivity).
  split_and!; [exact Hreach|reflexivity|].
  apply (registered_names_nonempty st "Xy3_abcdefgh" (Agent "Agent-Xy3_a" true) Hreach).
  reflexivity.
Defined.

(** ** supplier-call, and leaving again *)

Lemma indexOf_app_new x q : x ∉ q → indexOf x (q ++ [x]) = Z.of_nat (length q).
Proof.
  induction q as [|y q IH]; simpl.
  - intros _. by rewrite decide_True.
  - intros [Hne Hq]%not_elem_of_cons.
    rewrite decide_False by done. rewrite IH by done.
    rewrite decide_False by lia. lia.
Qed.

Lemma splice1_app_new x q : splice1 (length q) (q ++ [x]) = q.
Proof. induction q as [|y q IH]; simpl; [done|]. by rewrite IH. Qed.

Lemma disconnect_non_agent_run st sid :
  agents_get sid (agents st) = None →
  disconnect sid st =
    let q' := if decide (indexOf sid (waitingQueue st) >= 0)
              then splice1 (Z.to_nat (indexOf sid (waitingQueue st))) (waitingQueue st)
              else waitingQueue st in
    match truthy (pairings st !! sid) with
    | Some a =>
        (tt,
         State (agents_set_busy a false (agents st)) q'
               (delete sid (delete a (pairings st))),
         [Msg a (SupplierDisconnected sid)])
    | None => (tt, State (agents st) q' (delete sid (pairings st)), [])
    end.
Proof.
  intros Hsid. destruct st as [ags q p]. simpl in *.
  unfold disconnect, clear_busy_if_agent, set_busy, delete_pairing,
    with_agents, with_queue, with_pairings, skip.
  cbv [mbind M_bind mret M_ret gets modify emit]. simpl. rewrite Hsid.
  repeat case_decide; try lia; simpl;
    (destruct (truthy (p !! sid)) as [a|]; simpl; [|done];
     destruct (agents_get a ags) eqn:Ha; simpl; [done|];
     by rewrite agents_set_busy_absent).

Qed.

(** X4: a supplier that is not queued calls while no agent is free: it is
    appended at the tail of the queue and sent [queue-status] with the new
    queue length, which is its 1-based position; the agents and the pairing
    table are not read or written, whether or not the caller is paired. *)
Theorem supplier_call_queues_at_tail st sid :
  includes sid (waitingQueue st) = false →
  findFreeAgent (agents st) = None →
  let st' := after st (sid, SupplierCall) in
  waitingQueue st' = waitingQueue st ++ [sid] ∧
  agents st' = agents st ∧
  pairings st' = pairings st ∧
  emitted st (sid, SupplierCall) =
    [Msg sid (QueueStatus (Z.of_nat (length (waitingQueue st)) + 1))] ∧
  indexOf sid (waitingQueue st') + 1 = Z.of_nat (length (waitingQueue st)) + 1.
Proof.
  intros Hq Hfree st'. subst st'. rewrite after_exec, emitted_output.
  unfold exec, output. simpl. rewrite supplier_call_no_agent_run by done. simpl.
  split_and!; try done.
  - rewrite length_app. simpl. do 3 f_equal. lia.
  - rewrite indexOf_app_new; [done|]. by apply includes_false.
Qed.

Lemma supplier_call_queues_at_tail_witness :
  let st := run init [("A1", AgentRegister None); ("S1", SupplierCall);
                      ("S2", SupplierCall)] in
  includes "S3" (waitingQueue st) = false ∧
  findFreeAgent (agents st) = None ∧
  waitingQueue (after st ("S3", SupplierCall)) = ["S2"; "S3"] ∧
  emitted st ("S3", SupplierCall) = [Msg "S3" (QueueStatus 2)].
Proof.
  intros st.
  destruct (supplier_call_queues_at_tail st "S3") as (Hq & _ & _ & Hout & _);
    [reflexivity|reflexivity|].
  split_and!; [reflexivity|reflexivity|exact Hq|exact Hout].
Defined.

(** X5: a supplier that is neither registered as an agent nor paired, calls
    while no agent is free and then disconnects: the three stores are back
    where they were. *)
Theorem supplier_call_then_disconnect_restores st sid :
  includes sid (waitingQueue st) = false →
  findFreeAgent (agents st) = None →
  agents_get sid (agents st) = None →
  pairings st !! sid = None →
  run st [(sid, SupplierCall); (sid, Disconnect)] = st.
Proof.
  intros Hq Hfree Hsid Hp. simpl.
  rewrite !after_exec. unfold exec at 2. simpl.
  rewrite supplier_call_no_agent_run by done. simpl.
  unfold exec. simpl. rewrite disconnect_non_agent_run by done. simpl.
  rewrite Hp. simpl.
  apply includes_false in Hq.
  rewrite indexOf_app_new by done.
  rewrite decide_True by lia. rewrite Nat2Z.id, splice1_app_new.
  rewrite delete_id by done. apply state_eta.
Qed.

Lemma supplier_call_then_disconnect_restores_witness :
  let st := run init [("A1", AgentRegister None); ("S1", SupplierCall);
                      ("S2", SupplierCall)] in
  waitingQueue st = ["S2"] ∧
  run st [("S3", SupplierCall); ("S3", Disconnect)] = st.
Proof.
  intros st. split; [reflexivity|].
  apply (supplier_call_then_disconnect_restores st "S3"); reflexivity.
Defined.

Lemma agents_set_busy_undo a r ags :
  agents_get a ags = Some r → busy r = false →
  agents_set_busy a false (agents_set_busy a true ags) = ags.
Proof.
  induction ags as [|[k0 r0] rest IH]; simpl; [done|].
  destruct (decide (a = k0)) as [->|Hne]; simpl.
  - intros [= ->] Hb. rewrite decide_True by done. simpl.
    destruct r as [n b]. simpl in *. by subst.
  - intros Hr Hb. rewrite decide_False by done. by rewrite IH.
Qed.

Lemma unpair_after_pair (s a : string) (m : gmap string string) :
  m !! s = None → m !! a = None →
  delete a (delete s (<[a:=s]> (<[s:=a]> m))) = m.
Proof.
  intros Hs Ha. apply map_eq. intros k.
  destruct (decide (k = a)) as [->|Hka]; [by rewrite lookup_delete_eq|].
  rewrite lookup_delete_ne by done.
  destruct (decide (k = s)) as [->|Hks]; [by rewrite lookup_delete_eq|].
  by rewrite lookup_delete_ne, !lookup_insert_ne.
Qed.

(** X6: with an empty queue, a supplier that is neither an agent nor paired
    is offered to a free, unpaired agent and then ends the call with it: the
    three stores are back where they were, the agent is free again. *)
Theorem offer_then_end_call_restores st sid a :
  reachable st →
  sid ≠ "" →
  waitingQueue st = [] →
  findFreeAgent (agents st) = Some a →
  agents_get sid (agents st) = None →
  pairings st !! sid = None →
  pairings st !! a = None →
  run st [(sid, SupplierCall); (sid, EndCall a)] = st.
Proof.
  intros Hreach Hne Hq Hfree Hsid Hps Hpa. simpl.
  set (st1 := after st (sid, SupplierCall)).
  assert (reachable st1) as Hreach1.
  { apply reachable_step; [done|]. by repeat constructor. }
  assert (a ≠ "") as Ha.
  { apply reachable_store_ok in Hreach as [_ Hids].
    rewrite Forall_forall in Hids. by apply Hids, findFreeAgent_is_key. }
  assert (st1 = State (agents_set_busy a true (agents st)) []
                      (<[a:=sid]> (<[sid:=a]> (pairings st)))) as Hst1.
  { unfold st1. rewrite after_exec. unfold exec. simpl.
    rewrite (supplier_call_free_run st sid a), offer_supplier_first_run, ?Hq;
      [done|by rewrite Hq|].
    rewrite Hfree. by apply truthy_nonempty. }
  destruct (findFreeAgent_free _ _ Hfree) as (r & Hr & Hb).
  rewrite after_exec. simpl. unfold end_call. rewrite exec_bind.
  assert (a ≠ sid) as Hasid by (intros ->; congruence).
  unfold exec. rewrite end_call_teardown_run.
  simpl. rewrite end_call_promote_idle by (right; by rewrite Hst1).
  simpl. rewrite Hst1. simpl.
  rewrite (agents_set_busy_absent sid).
  2:{ rewrite agents_get_set_busy. case_decide; [by subst; rewrite Hsid|done]. }
  rewrite (agents_set_busy_undo a r) by done.
  rewrite (delete_truthy_delete sid).
  2:{ intros v. rewrite lookup_insert_ne, lookup_insert_eq by done. congruence. }
  rewrite (delete_truthy_delete a).
  2:{ intros v. rewrite lookup_delete_ne, lookup_insert_eq by done. congruence. }
  rewrite unpair_after_pair by done.
  rewrite <-Hq. apply state_eta.
Qed.

Lemma offer_then_end_call_restores_witness :
  let st := run init [("A1", AgentRegister None)] in
  reachable st ∧ findFreeAgent (agents st) = Some "A1" ∧
  run st [("S1", SupplierCall); ("S1", EndCall "A1")] = st.
Proof.
  intros st.
  assert (reachable st) as Hreach by (apply reachable_run; vm_compute; reflexivity).
  split_and!; [exact Hreach|reflexivity|].
  apply (offer_then_end_call_restores st "S1" "A1" Hreach);
    [discriminate|reflexivity..].
Defined.

(** ** agent-accept by a registered agent *)

Lemma agent_accept_run st sid supplierId r :
  agents_get sid (agents st) = Some r →
  agent_accept sid supplierId st =
    (tt,
     State (agents_set_busy sid true (agents st)) (waitingQueue st)
           (<[sid:=supplierId]> (assign_received supplierId sid (pairings st))),
     [Msg supplierId (CallAccepted sid); Msg sid (CallStarted supplierId)]).
Proof.
  intros Hsid.
  unfold agent_accept, set_busy, set_pairing, set_pairing_received,
    with_agents, with_pairings.
  cbv [mbind M_bind mret M_ret gets modify emit]. by rewrite Hsid.
Qed.

Lemma pair_again (s a : string) (m : gmap string string) :
  <[a:=s]> (<[s:=a]> (<[a:=s]> (<[s:=a]> m))) = <[a:=s]> (<[s:=a]> m).
Proof.
  apply map_eq. intros k. rewrite !lookup_insert. by repeat case_decide.
Qed.

Lemma pair_again_received (s a : string) (m : gmap string string) :
  <[a:=s]> (assign_received s a (<[a:=s]> (assign_received s a m))) =
  <[a:=s]> (assign_received s a m).
Proof.
  unfold assign_received. case_decide; [apply insert_insert_eq|apply pair_again].
Qed.

Lemma accept_after_offer_map (s a : string) (m : gmap string string) :
  <[a:=s]> (assign_received s a (<[a:=s]> (<[s:=a]> m))) = <[a:=s]> (<[s:=a]> m).
Proof.
  unfold assign_received. case_decide; [apply insert_insert_eq|apply pair_again].
Qed.

Lemma agents_set_busy_again k b ags :
  agents_set_busy k b (agents_set_busy k b ags) = agents_set_busy k b ags.
Proof.
  induction ags as [|[k0 r0] rest IH]; simpl; [done|].
  destruct (decide (k = k0)) as [->|Hne]; simpl.
  - by rewrite decide_True.
  - rewrite decide_False by done. by rewrite IH.
Qed.

(** X7: [agent-accept{supplierId}] from a registered agent makes the
    agent's pairing entry name [supplierId], makes the entry keyed by
    [supplierId] name the agent for every [supplierId] but ["__proto__"],
    marks the agent busy, and emits [call-accepted{agentId}] to the supplier
    and [call-started{supplierId}] to the agent.  It checks nothing about
    the supplier: every other pairing entry (a former partner's included),
    every other agent and the queue, even if the supplier is in it, stay as
    they were. *)
Theorem agent_accept_effect st sid supplierId r :
  agents_get sid (agents st) = Some r →
  let st' := after st (sid, AgentAccept supplierId) in
  agents_get sid (agents st') = Some (Agent (name r) true) ∧
  (∀ k, k ≠ sid → agents_get k (agents st') = agents_get k (agents st)) ∧
  pairings st' !! sid = Some supplierId ∧
  (supplierId ≠ "__proto__" → pairings st' !! supplierId = Some sid) ∧
  (∀ k, k ≠ sid → k ≠ supplierId → pairings st' !! k = pairings st !! k) ∧
  waitingQueue st' = waitingQueue st ∧
  emitted st (sid, AgentAccept supplierId) =
    [Msg supplierId (CallAccepted sid); Msg sid (CallStarted supplierId)].
Proof.
  intros Hsid st'. subst st'. rewrite after_exec, emitted_output.
  unfold exec, output. simpl. rewrite (agent_accept_run _ _ _ r) by done. simpl.
  split_and!; try done.
  - by rewrite agents_get_set_busy, decide_True, Hsid.
  - intros k Hk. by rewrite agents_get_set_busy, decide_False.
  - apply offered_received_supplier_first.
  - apply offered_received_supplier_first.
  - intros k ? ?. rewrite lookup_insert_ne by done.
    by apply offered_received_frame.
Qed.

Lemma agent_accept_effect_witness :
  let st := run init [("S1", SupplierCall); ("A1", AgentRegister (Some "Ann"))] in
  agents_get "A1" (agents st) = Some (Agent "Ann" false) ∧
  waitingQueue st = ["S1"] ∧
  pairings (after st ("A1", AgentAccept "S1")) !! "S1" = Some "A1" ∧
  waitingQueue (after st ("A1", AgentAccept "S1")) = ["S1"] ∧
  emitted st ("A1", AgentAccept "S1") =
    [Msg "S1" (CallAccepted "A1"); Msg "A1" (CallStarted "S1")].
Proof.
  intros st.
  destruct (agent_accept_effect st "A1" "S1" (Agent "Ann" false))
    as (_ & _ & _ & Hs & _ & Hq & Hout); [reflexivity|].
  split_and!; [reflexivity|reflexivity| |exact Hq|exact Hout].
  apply Hs. discriminate.
Defined.

(** X8: [agent-accept] is idempotent for a registered agent: accepting the
    same supplier a second time leaves the stores as the first accept left
    them and emits the same two messages. *)
Theorem agent_accept_idempotent st sid supplierId :
  is_Some (agents_get sid (agents st)) →
  let st' := after st (sid, AgentAccept supplierId) in
  after st' (sid, AgentAccept supplierId) = st' ∧
  emitted st' (sid, AgentAccept supplierId) = emitted st (sid, AgentAccept supplierId).
Proof.
  intros [r Hsid] st'.
  assert (st' = State (agents_set_busy sid true (agents st)) (waitingQueue st)
                      (<[sid:=supplierId]>
                         (assign_received supplierId sid (pairings st)))) as Hst'.
  { unfold st'. rewrite after_exec. unfold exec. simpl.
    by rewrite (agent_accept_run _ _ _ r). }
  assert (agents_get sid (agents st') = Some (Agent (name r) true)) as Hsid'.
  { rewrite Hst'. simpl. by rewrite agents_get_set_busy, decide_True, Hsid. }
  rewrite after_exec, !emitted_output. unfold exec, output. simpl.
  rewrite (agent_accept_run st' _ _ _ Hsid'), (agent_accept_run st _ _ _ Hsid).
  simpl. split; [|done].
  rewrite Hst'. simpl. by rewrite agents_set_busy_again, pair_again_received.
Qed.

Lemma agent_accept_idempotent_witness :
  let st := run init [("A1", AgentRegister None); ("S1", SupplierCall)] in
  let st' := after st ("A1", AgentAccept "S2") in
  is_Some (agents_get "A1" (agents st)) ∧
  after st' ("A1", AgentAccept "S2") = st' ∧
  emitted st' ("A1", AgentAccept "S2") = emitted st ("A1", AgentAccept "S2").
Proof.
  intros st st'.
  assert (is_Some (agents_get "A1" (agents st))) as Hreg by (eexists; reflexivity).
  split; [exact Hreg|].
  apply (agent_accept_idempotent st "A1" "S2" Hreg).
Defined.

(** X9: when the agent that [supplier-call] offered a supplier to accepts
    that supplier, no store changes: the offer already wrote the pairing and
    the busy flag, and the accept only emits its two messages. *)
Theorem accept_after_offer_keeps_stores st sid a :
  reachable st →
  includes sid (waitingQueue st) = false →
  findFreeAgent (agents st) = Some a →
  let st' := after st (sid, SupplierCall) in
  after st' (a, AgentAccept sid) = st' ∧
  emitted st' (a, AgentAccept sid) =
    [Msg sid (CallAccepted a); Msg a (CallStarted sid)].
Proof.
  intros Hreach Hq Hfree st'.
  assert (a ≠ "") as Ha.
  { apply reachable_store_ok in Hreach as [_ Hids].
    rewrite Forall_forall in Hids. by apply Hids, findFreeAgent_is_key. }
  destruct (findFreeAgent_free _ _ Hfree) as (r & Hr & Hb).
  assert (st' = State (agents_set_busy a true (agents st)) (waitingQueue st)
                      (<[a:=sid]> (<[sid:=a]> (pairings st)))) as Hst'.
  { unfold st'. rewrite after_exec. unfold exec. simpl.
    rewrite (supplier_call_free_run st sid a), offer_supplier_first_run; [done..|].
    rewrite Hfree. by apply truthy_nonempty. }
  assert (agents_get a (agents st') = Some (Agent (name r) true)) as Ha'.
  { rewrite Hst'. simpl. by apply offered_agent_busy. }
  rewrite after_exec, emitted_output. unfold exec, output. simpl.
  rewrite (agent_accept_run st' _ _ _ Ha'). simpl. split; [|done].
  rewrite Hst'. simpl. by rewrite agents_set_busy_again, accept_after_offer_map.
Qed.

Lemma accept_after_offer_keeps_stores_witness :
  let st := run init [("A1", AgentRegister None)] in
  let st' := after st ("S1", SupplierCall) in
  reachable st ∧
  after st' ("A1", AgentAccept "S1") = st' ∧
  emitted st' ("A1", AgentAccept "S1") =
    [Msg "S1" (CallAccepted "A1"); Msg "A1" (CallStarted "S1")].
Proof.
  intros st st'.
  assert (reachable st) as Hreach by (apply reachable_run; vm_compute; reflexivity).
  split; [exact Hreach|].
  apply (accept_after_offer_keeps_stores st "S1" "A1" Hreach); reflexivity.
Defined.

(** ** agent-reject, the two ways it can go *)

(** X10: [agent-reject{supplierId}] from a socket that is not a registered
    agent, when no agent is free, takes the queue branch: the supplier is
    appended at the tail unless it is already queued, in which case the
    queue is unchanged; the agents and the pairing table are not written,
    and the supplier is sent [queue-status] with the 1-based position of its
    queue entry. *)
Theorem agent_reject_requeues_when_none_free st sid supplierId :
  agents_get sid (agents st) = None →
  findFreeAgent (agents st) = None →
  let st' := after st (sid, AgentReject supplierId) in
  waitingQueue st' =
    (if includes supplierId (waitingQueue st) then waitingQueue st
     else waitingQueue st ++ [supplierId]) ∧
  agents st' = agents st ∧
  pairings st' = pairings st ∧
  ∃ i : nat,
    emitted st (sid, AgentReject supplierId) =
      [Msg supplierId (QueueStatus (Z.of_nat i + 1))] ∧
    waitingQueue st' !! i = Some supplierId ∧
    (∀ j : nat, (j < i)%nat → waitingQueue st' !! j ≠ Some supplierId).
Proof.
  intros Hsid Hfree st'.
  set (q' := if includes supplierId (waitingQueue st) then waitingQueue st
             else waitingQueue st ++ [supplierId]).
  assert (agent_reject sid supplierId st =
            (tt, State (agents st) q' (pairings st),
             [Msg supplierId (QueueStatus (indexOf supplierId q' + 1))])) as Hrun.
  { unfold agent_reject.
    rewrite (run_seq _ _ _ _ _ _ (clear_busy_if_agent_run sid st)).
    rewrite agents_set_busy_absent by done. rewrite state_eta.
    unfold push, with_queue, skip.
    cbv [mbind M_bind mret M_ret gets modify emit]. rewrite Hfree. simpl.
    unfold q'. destruct (includes supplierId (waitingQueue st)); simpl; [|done].
    by rewrite state_eta. }
  subst st'. rewrite after_exec, emitted_output. unfold exec, output. simpl.
  rewrite Hrun. simpl. split_and!; try done.
  destruct (indexOf_found supplierId q') as (i & Hi & Hl & Hfirst).
  { unfold q'. destruct (includes supplierId (waitingQueue st)) eqn:Hin.
    - by apply includes_elem_of.
    - rewrite elem_of_app, list_elem_of_singleton. by right. }
  exists i. by rewrite Hi.
Qed.

Lemma agent_reject_requeues_when_none_free_witness :
  let st := run init [("A1", AgentRegister None); ("S1", SupplierCall);
                      ("S2", SupplierCall)] in
  agents_get "S1" (agents st) = None ∧
  findFreeAgent (agents st) = None ∧
  waitingQueue (after st ("S1", AgentReject "S1")) = ["S2"; "S1"].
Proof.
  intros st.
  destruct (agent_reject_requeues_when_none_free st "S1" "S1") as (Hq & _);
    [reflexivity|reflexivity|].
  split_and!; [reflexivity|reflexivity|exact Hq].
Defined.

(** X11: [agent-reject] from a registered agent never takes the queue
    branch.  The agent's own flag is cleared before the search, so the
    search succeeds: the first free agent in insertion order, which may be
    the rejecting agent itself, is marked busy and its pairing entry names
    the supplier; the entry keyed by [supplierId] names that agent for every
    [supplierId] but ["__proto__"]; the queue is unchanged and the only
    messages are [incoming-call] to that agent and [call-requested] to the
    supplier. *)
Theorem agent_reject_by_agent_always_offers st sid supplierId :
  reachable st →
  is_Some (agents_get sid (agents st)) →
  let st' := after st (sid, AgentReject supplierId) in
  ∃ a, findFreeAgent (agents_set_busy sid false (agents st)) = Some a ∧
       waitingQueue st' = waitingQueue st ∧
       busy <$> agents_get a (agents st') = Some true ∧
       pairings st' !! a = Some supplierId ∧
       (supplierId ≠ "__proto__" → pairings st' !! supplierId = Some a) ∧
       emitted st (sid, AgentReject supplierId) =
         [Msg a (IncomingCall supplierId); Msg supplierId (CallRequested a)].
Proof.
  intros Hreach Hsid st'.
  destruct (agent_reject_by_agent_run st sid supplierId Hreach Hsid) as (a & Ha & Hrun).
  exists a. subst st'. rewrite after_exec, emitted_output. unfold exec, output. simpl.
  rewrite Hrun, offer_rejected_supplier_run. simpl.
  destruct (findFreeAgent_free _ _ Ha) as (r & Hr & Hb).
  split_and!; try done.
  - by rewrite agents_get_set_busy, decide_True, Hr.
  - apply offered_received_supplier_first.
  - apply offered_received_supplier_first.
Qed.

Lemma agent_reject_by_agent_always_offers_witness :
  let st := run init [("A1", AgentRegister None); ("A2", AgentRegister None);
                      ("S1", SupplierCall); ("S2", SupplierCall)] in
  reachable st ∧
  ∃ a, findFreeAgent (agents_set_busy "A2" false (agents st)) = Some a ∧
       waitingQueue (after st ("A2", AgentReject "S2")) = waitingQueue st ∧
       busy <$> agents_get a (agents (after st ("A2", AgentReject "S2"))) = Some true ∧
       pairings (after st ("A2", AgentReject "S2")) !! a = Some "S2" ∧
       ("S2" ≠ "__proto__" →
        pairings (after st ("A2", AgentReject "S2")) !! "S2" = Some a) ∧
       emitted st ("A2", AgentReject "S2") =
         [Msg a (IncomingCall "S2"); Msg "S2" (CallRequested a)].
Proof.
  intros st.
  assert (reachable st) as Hreach by (apply reachable_run; vm_compute; reflexivity).
  split; [exact Hreach|].
  apply (agent_reject_by_agent_always_offers st "A2" "S2" Hreach).
  eexists; reflexivity.
Defined.

(** ** Signaling relay *)

Lemma relay_keeps_state st sid ev : is_relay ev = true → after st (sid, ev) = st.
Proof. by destruct ev. Qed.

(** X12: the three relay events forward one message, carrying the sender's
    id and the payload as received, to the connection named by [to], with no
    check that [to] is the sender's partner; they never touch the stores, so
    a run of events ends in the same stores with or without the relay
    events in it. *)
Theorem relay_is_transparent st sid to x trace :
  emitted st (sid, WebrtcOffer to x) = [Msg to (RelayOffer sid x)] ∧
  emitted st (sid, WebrtcAnswer to x) = [Msg to (RelayAnswer sid x)] ∧
  emitted st (sid, WebrtcCandidate to x) = [Msg to (RelayCandidate sid x)] ∧
  run st (filter (λ se, is_relay se.2 = false) trace) = run st trace.
Proof.
  split_and!; try done.
  revert st. induction trace as [|[s ev] trace IH]; intros st; [done|].
  rewrite filter_cons. simpl. destruct (is_relay ev) eqn:Hev.
  - rewrite decide_False by done. by rewrite relay_keeps_state.
  - rewrite decide_True by done. simpl. apply IH.
Qed.

(** ** end-call with nobody to promote *)

(** X13: when no agent is free once [end-call] has torn the pairing down,
    nobody is promoted: the queue is left as it is, however long, and the
    only message is [call-ended] to [partnerId]. *)
Theorem end_call_without_free_agent st sid partnerId :
  reachable st →
  findFreeAgent (agents (torn_down st sid partnerId)) = None →
  after st (sid, EndCall partnerId) = torn_down st sid partnerId ∧
  waitingQueue (after st (sid, EndCall partnerId)) = waitingQueue st ∧
  emitted st (sid, EndCall partnerId) = [Msg partnerId (CallEnded sid)].
Proof.
  intros Hreach Hfree.
  pose proof (end_call_teardown_run st sid partnerId) as Hrun.
  assert (after st (sid, EndCall partnerId) = torn_down st sid partnerId) as Hafter.
  { rewrite after_exec. simpl. unfold end_call. rewrite exec_bind.
    fold (torn_down st sid partnerId). unfold exec at 1.
    rewrite end_call_promote_idle; [done|by left]. }
  split_and!; [done| |].
  - rewrite Hafter. unfold torn_down, exec. by rewrite Hrun.
  - rewrite emitted_output. simpl. unfold end_call. rewrite output_bind.
    fold (torn_down st sid partnerId). unfold output at 2.
    rewrite end_call_promote_idle; [|by left]. unfold output. by rewrite Hrun.
Qed.

Lemma end_call_without_free_agent_witness :
  let st := run init [("A1", AgentRegister None); ("S1", SupplierCall);
                      ("S2", SupplierCall)] in
  reachable st ∧
  findFreeAgent (agents (torn_down st "S2" "S9")) = None ∧
  waitingQueue (after st ("S2", EndCall "S9")) = ["S2"] ∧
  emitted st ("S2", EndCall "S9") = [Msg "S9" (CallEnded "S2")].
Proof.
  intros st.
  assert (reachable st) as Hreach by (apply reachable_run; vm_compute; reflexivity).
  destruct (end_call_without_free_agent st "S2" "S9" Hreach) as (_ & Hq & Hout);
    [reflexivity|].
  split_and!; [exact Hreach|reflexivity|exact Hq|exact Hout].
Defined.

(** ** disconnect *)

Lemma indexOf_split x q :
  x ∈ q →
  ∃ l1 l2, q = l1 ++ (x :: l2) ∧ (x ∉ l1) ∧
           indexOf x q = Z.of_nat (length l1) ∧
           splice1 (length l1) q = l1 ++ l2.
Proof.
  induction q as [|y q IH]; [by intros ?%elem_of_nil|].
  rewrite elem_of_cons. intros Hin. simpl.
  destruct (decide (x = y)) as [->|Hne].
  - exists [], q. split_and!; [done|apply not_elem_of_nil|done|done].
  - destruct IH as (l1 & l2 & -> & Hl1 & Hi & Hs); [by destruct Hin|].
    exists (y :: l1), l2. rewrite Hi. rewrite decide_False by lia.
    split_and!; [done| |simpl; lia|simpl; by rewrite Hs].
    by apply not_elem_of_cons.
Qed.

Lemma agents_get_delete k k' ags :
  agents_get k (agents_delete k' ags) =
    if decide (k = k') then None else agents_get k ags.
Proof.
  induction ags as [|[k0 r0] rest IH]; simpl; [by case_decide|].
  destruct (decide (k' = k0)) as [->|Hk0]; simpl.
  - rewrite IH. by repeat case_decide; subst.
  - rewrite IH. by repeat case_decide; subst.
Qed.

Lemma truthy_free_registered ags a :
  truthy (findFreeAgent ags) = Some a → is_Some (agents_get a ags) ∧ a ≠ "".
Proof.
  intros [Hf Ha]%truthy_Some. split; [|done].
  destruct (findFreeAgent_free _ _ Hf) as (r & -> & _). by eexists.
Qed.

Ltac lookups_in H :=
  repeat first
    [ rewrite lookup_insert in H
    | rewrite lookup_delete in H
    | rewrite assign_received_lookup in H
    | rewrite delete_truthy_lookup in H ].

Ltac agent_lookups :=
  repeat first
    [ rewrite agents_get_set_busy
    | rewrite agents_get_delete
    | rewrite agents_get_set ].

(** Lines 66 and 80 are the only writes of a value a client chose, and both
    write under the key of a registered agent; the agent's disconnect
    deletes that entry with the record (lines 147-148). *)
Lemma empty_values_step st sid ev :
  sid ≠ "" → empty_values_at_agents st → empty_values_at_agents (after st (sid, ev)).
Proof.
  unfold empty_values_at_agents. intros Hsid Hinv. destruct st as [ags q p].
  simpl in *.
  destruct ev; run_handler;
    repeat case_match; simplify_eq/=; intros k Hk;
    lookups_in Hk; repeat case_decide; simplify_eq/=;
    repeat match goal with
      | H : truthy (findFreeAgent _) = Some _ |- _ =>
          apply truthy_free_registered in H as [? ?]
      | H : truthy _ = Some _ |- _ => apply truthy_ne in H
      end;
    try done;
    repeat match goal with
      | H : is_Some (agents_get _ (agents_set_busy _ _ _)) |- _ =>
          rewrite agents_get_set_busy in H
      end;
    agent_lookups; repeat case_decide; simplify_eq/=;
    try done; rewrite ?fmap_is_Some in *;
    try (match goal with
         | H : agents_get ?k ?a = Some _ |- is_Some (agents_get ?k ?a) =>
             rewrite H; by eexists
         end);
    eauto.
Qed.

Lemma reachable_empty_values st : reachable st → empty_values_at_agents st.
Proof.
  induction 1 as [|st [sid ev] _ IH Hwf].
  - intros k Hk. simpl in Hk. by rewrite lookup_empty in Hk.
  - by apply empty_values_step.
Qed.

(** X14: a socket that is not a registered agent and has no pairing entry
    disconnects while queued: its first queue entry is removed, the entries
    before and after it keep their order, the queue is shorter by exactly
    one, the agents and the pairing table are unchanged and nothing is
    emitted. *)
Theorem disconnect_removes_queued_supplier st sid :
  agents_get sid (agents st) = None →
  pairings st !! sid = None →
  sid ∈ waitingQueue st →
  let st' := after st (sid, Disconnect) in
  (∃ l1 l2, waitingQueue st = l1 ++ (sid :: l2) ∧ (sid ∉ l1) ∧
            waitingQueue st' = l1 ++ l2) ∧
  (length (waitingQueue st') + 1 = length (waitingQueue st))%nat ∧
  agents st' = agents st ∧
  pairings st' = pairings st ∧
  emitted st (sid, Disconnect) = [].
Proof.
  intros Hsid Hp Hin st'.
  destruct (indexOf_split sid (waitingQueue st) Hin) as (l1 & l2 & Hq & Hl1 & Hi & Hs).
  assert (disconnect sid st = (tt, State (agents st) (l1 ++ l2) (pairings st), [])) as Hrun.
  { rewrite disconnect_non_agent_run by done. simpl. rewrite Hp. simpl.
    rewrite Hi. rewrite decide_True by lia. rewrite Nat2Z.id, Hs.
    by rewrite delete_id. }
  subst st'. rewrite after_exec, emitted_output. unfold exec, output. simpl.
  rewrite Hrun. simpl. split_and!; try done.
  - by exists l1, l2.
  - rewrite Hq, !length_app. simpl. lia.
Qed.

Lemma disconnect_removes_queued_supplier_witness :
  let st := run init [("S1", SupplierCall); ("S2", SupplierCall); ("S3", SupplierCall)] in
  waitingQueue st = ["S1"; "S2"; "S3"] ∧
  (length (waitingQueue (after st ("S2", Disconnect))) + 1 = 3)%nat ∧
  emitted st ("S2", Disconnect) = [].
Proof.
  intros st.
  destruct (disconnect_removes_queued_supplier st "S2") as (_ & Hlen & _ & _ & Hout);
    [reflexivity|reflexivity| |].
  - apply list_elem_of_further, list_elem_of_here.
  - split_and!; [reflexivity|exact Hlen|exact Hout].
Defined.

(** X15: a socket that is not a registered agent disconnects while it has a
    pairing entry: its partner is sent [supplier-disconnected], the
    partner's busy flag is cleared if the partner is a registered agent, and
    the entries keyed by the socket and by the partner are deleted.  The
    freed agent is not offered a waiting supplier: nothing else is emitted
    and the queue only loses the socket's own entry, if it had one. *)
Theorem disconnect_of_paired_supplier st sid a :
  reachable st →
  agents_get sid (agents st) = None →
  pairings st !! sid = Some a →
  let st' := after st (sid, Disconnect) in
  emitted st (sid, Disconnect) = [Msg a (SupplierDisconnected sid)] ∧
  pairings st' = delete sid (delete a (pairings st)) ∧
  (∀ k, agents_get k (agents st') =
          if decide (k = a)
          then (λ r, Agent (name r) false) <$> agents_get k (agents st)
          else agents_get k (agents st)) ∧
  (sid ∉ waitingQueue st → waitingQueue st' = waitingQueue st).
Proof.
  intros Hreach Hsid Hp st'.
  assert (a ≠ "") as Ha.
  { intros ->. destruct (reachable_empty_values _ Hreach sid Hp) as [r Hr].
    congruence. }
  subst st'. rewrite after_exec, emitted_output. unfold exec, output. simpl.
  rewrite disconnect_non_agent_run by done. simpl.
  rewrite Hp, truthy_nonempty by done. simpl. split_and!; try done.
  - intros k. apply agents_get_set_busy.
  - intros Hnotin. rewrite indexOf_absent by done. by rewrite decide_False by lia.
Qed.

Lemma disconnect_of_paired_supplier_witness :
  let st := run init [("A1", AgentRegister None); ("S1", SupplierCall);
                      ("S2", SupplierCall)] in
  reachable st ∧
  pairings st !! "S1" = Some "A1" ∧
  emitted st ("S1", Disconnect) = [Msg "A1" (SupplierDisconnected "S1")] ∧
  pairings (after st ("S1", Disconnect)) = delete "S1" (delete "A1" (pairings st)) ∧
  waitingQueue (after st ("S1", Disconnect)) = ["S2"].
Proof.
  intros st.
  assert (reachable st) as Hreach by (apply reachable_run; vm_compute; reflexivity).
  destruct (disconnect_of_paired_supplier st "S1" "A1" Hreach) as (Hout & Hp & _ & Hq);
    [reflexivity|reflexivity|].
  split_and!; [exact Hreach|reflexivity|exact Hout|exact Hp|].
  apply Hq. intros Hin%list_elem_of_singleton. discriminate.
Defined.

Lemma disconnect_agent_requeue_run st sid r s :
  agents_get sid (agents st) = Some r →
  truthy (pairings st !! sid) = Some s →
  findFreeAgent (agents st) = None →
  disconnect sid st =
    (tt,
     State (agents_delete sid (agents st)) (waitingQueue st ++ [s])
           (delete sid (delete s (pairings st))),
     [Msg s AgentDisconnected;
      Msg s (QueueStatus (indexOf s (waitingQueue st ++ [s]) + 1))]).
Proof.
  intros Hsid Hs Hfree. destruct st as [ags q p]. simpl in *.
  unfold disconnect, delete_pairing, push, with_agents, with_queue, with_pairings.
  cbv [mbind M_bind mret M_ret gets modify emit]. simpl.
  rewrite Hsid. simpl. rewrite Hs. simpl. by rewrite Hfree.
Qed.

(** X16: a registered agent disconnects while its pairing entry names a
    partner, that is, holds a non-empty id, and no agent is free: the
    partner's entry is deleted, the partner is sent [agent-disconnected] and
    then [queue-status], it is appended at the tail of the queue, and the
    agent's record and own entry are deleted.  The position sent is that of
    the partner's first queue entry, which is the new tail when the partner
    was not queued before. *)
Theorem disconnect_of_agent_requeues_partner st sid r s :
  agents_get sid (agents st) = Some r →
  pairings st !! sid = Some s →
  s ≠ "" →
  findFreeAgent (agents st) = None →
  let st' := after st (sid, Disconnect) in
  agents_get sid (agents st') = None ∧
  (∀ k, k ≠ sid → agents_get k (agents st') = agents_get k (agents st)) ∧
  waitingQueue st' = waitingQueue st ++ [s] ∧
  pairings st' = delete sid (delete s (pairings st)) ∧
  emitted st (sid, Disconnect) =
    [Msg s AgentDisconnected;
     Msg s (QueueStatus (indexOf s (waitingQueue st') + 1))] ∧
  (s ∉ waitingQueue st →
   indexOf s (waitingQueue st') + 1 = Z.of_nat (length (waitingQueue st)) + 1).
Proof.
  intros Hsid Hp Hs Hfree st'.
  subst st'. rewrite after_exec, emitted_output. unfold exec, output. simpl.
  rewrite (disconnect_agent_requeue_run st sid r s); [|done| |done].
  2:{ rewrite Hp. by apply truthy_nonempty. }
  simpl. split_and!; try done.
  - by rewrite agents_get_delete, decide_True.
  - intros k Hk. by rewrite agents_get_delete, decide_False.
  - intros Hnotin. by rewrite indexOf_app_new.
Qed.

Lemma disconnect_of_agent_requeues_partner_witness :
  let st := run init [("A1", AgentRegister None); ("S1", SupplierCall);
                      ("S2", SupplierCall)] in
  pairings st !! "A1" = Some "S1" ∧
  findFreeAgent (agents st) = None ∧
  agents (after st ("A1", Disconnect)) = [] ∧
  waitingQueue (after st ("A1", Disconnect)) = ["S2"; "S1"] ∧
  emitted st ("A1", Disconnect) =
    [Msg "S1" AgentDisconnected; Msg "S1" (QueueStatus 2)].
Proof.
  intros st.
  destruct (disconnect_of_agent_requeues_partner st "A1" (Agent "Agent-A1" true) "S1")
    as (_ & _ & Hq & _ & Hout & _); [reflexivity|reflexivity|discriminate|reflexivity|].
  split_and!; [reflexivity|reflexivity|reflexivity|exact Hq|exact Hout].
Defined.

(** X17: whatever the stores hold, once [disconnect] has run the socket is
    neither a registered agent nor a key of the pairing table. *)
Theorem disconnect_forgets_socket st sid :
  let st' := after st (sid, Disconnect) in
  agents_get sid (agents st') = None ∧ pairings st' !! sid = None.
Proof.
  destruct st as [ags q p]. run_handler.
  destruct (agents_get sid ags) as [r|] eqn:Hsid.
  - repeat case_match; simplify_eq/=;
      rewrite ?agents_get_delete, ?decide_True by done;
      by rewrite lookup_delete_eq.
  - repeat case_match; simplify_eq/=;
      rewrite ?agents_get_set_busy, ?Hsid; repeat case_decide;
      rewrite ?Hsid; by rewrite lookup_delete_eq.
Qed.

Lemma queue_unique_step_witness :
  let st := run init [("A1", AgentRegister None); ("S1", SupplierCall);
                      ("S2", SupplierCall)] in
  queue_unique st ∧
  queue_unique (after st ("A1", AgentReject "S2")) ∧
  queue_unique (after st ("S2", Disconnect)).
Proof.
  intros st.
  assert (queue_unique st) as Hq by apply NoDup_singleton.
  split_and!; [exact Hq| |].
  - apply (queue_unique_step st "A1" (AgentReject "S2") Hq). discriminate.
  - apply (queue_unique_step st "S2" Disconnect Hq). reflexivity.
Defined.

(** ** What any event may do to the queue and to the registry *)

Lemma queue_moves_forward_refl q : queue_moves_forward q q.
Proof. exists q, []. rewrite app_nil_r. split_and!; [done|reflexivity|simpl; lia]. Qed.

Lemma queue_moves_forward_push q x : queue_moves_forward q (q ++ [x]).
Proof. exists q, [x]. split_and!; [done|reflexivity|simpl; lia]. Qed.

Lemma queue_moves_forward_shift x q : queue_moves_forward (x :: q) q.
Proof. exists q, []. rewrite app_nil_r. split_and!; [done|by constructor|simpl; lia]. Qed.

Lemma splice1_sublist i q : splice1 i q `sublist_of` q.
Proof.
  revert i. induction q as [|y q IH]; intros i; simpl; [done|].
  destruct i; [by constructor|]. by constructor.
Qed.

Lemma queue_moves_forward_splice i q : queue_moves_forward q (splice1 i q).
Proof.
  exists (splice1 i q), []. rewrite app_nil_r.
  split_and!; [done|apply splice1_sublist|simpl; lia].
Qed.

(** X18: whatever the event, the queue after it is the queue before it with
    some entries removed, the remaining ones in their old order, and at most
    one entry appended at the tail: no handler inserts before a waiting
    supplier or reorders the queue. *)
Theorem queue_only_moves_forward st sid ev :
  queue_moves_forward (waitingQueue st) (waitingQueue (after st (sid, ev))).
Proof.
  destruct st as [ags q p]. simpl.
  destruct ev; run_handler;
    repeat case_match; simplify_eq/=;
    eauto using queue_moves_forward_refl, queue_moves_forward_push,
      queue_moves_forward_shift, queue_moves_forward_splice.
Qed.

Lemma filter_absent_key (k : string) (l : list string) :
  k ∉ l → filter (λ k', k' ≠ k) l = l.
Proof.
  induction l as [|y l IH]; [done|].
  intros [Hne Hl]%not_elem_of_cons. rewrite filter_cons.
  rewrite decide_True by done. by rewrite IH.
Qed.

(** X20: the set of registered agents and its order change on two events
    only.  [agent-register] adds the socket as the last key unless it is
    registered already, [disconnect] removes the socket's own key, and every
    other event, whatever ids it carries, leaves the keys as they are. *)
Theorem registry_keys_after st sid ev :
  keys (agents (after st (sid, ev))) =
    match ev with
    | AgentRegister _ =>
        match agents_get sid (agents st) with
        | Some _ => keys (agents st)
        | None => keys (agents st) ++ [sid]
        end
    | Disconnect => filter (λ k, k ≠ sid) (keys (agents st))
    | _ => keys (agents st)
    end.
Proof.
  destruct st as [ags q p]. simpl.
  destruct ev; run_handler;
    try (repeat case_match; simplify_eq/=; by rewrite ?agents_keys_set_busy).
  - apply agents_keys_set.
  - destruct (agents_get sid ags) as [r|] eqn:Hsid.
    + repeat case_match; simplify_eq/=;
        by rewrite agents_keys_delete, ?agents_keys_set_busy.
    + apply agents_get_None in Hsid.
      repeat case_match; simplify_eq/=;
        by rewrite ?agents_keys_set_busy, filter_absent_key.
Qed.

(** ** disconnect of an agent, the other two ways *)

Lemma disconnect_agent_reassign_run st sid r s a :
  agents_get sid (agents st) = Some r →
  truthy (pairings st !! sid) = Some s →
  truthy (findFreeAgent (agents st)) = Some a →
  disconnect sid st =
    (tt,
     State (agents_delete sid (agents_set_busy a true (agents st))) (waitingQueue st)
           (delete sid (assign_received s a (<[a:=s]> (delete s (pairings st))))),
     [Msg s AgentDisconnected; Msg a (IncomingCall s); Msg s (CallRequested a)]).
Proof.
  intros Hsid Hs Hfree. destruct st as [ags q p]. simpl in *.
  unfold disconnect, offer_agent_first, set_busy, set_pairing,
    set_pairing_received, delete_pairing,
    push, with_agents, with_queue, with_pairings.
  cbv [mbind M_bind mret M_ret gets modify emit]. simpl.
  rewrite Hsid. simpl. rewrite Hs. simpl. by rewrite Hfree.
Qed.

(** X21: a busy registered agent disconnects while its pairing entry names
    a partner, that is, holds a non-empty id, and some agent is free: the
    partner is sent [agent-disconnected] and is at once offered to the first
    free agent, which is marked busy and whose entry names the partner; the
    partner's entry names that agent for every partner id but ["__proto__"]
    and the disconnecting agent's own id; the queue is not touched, so the
    partner is served before every queued supplier; the disconnecting
    agent's record and entry are deleted. *)
Theorem disconnect_of_agent_reassigns_partner st sid r s a :
  reachable st →
  agents_get sid (agents st) = Some r →
  busy r = true →
  pairings st !! sid = Some s →
  s ≠ "" →
  findFreeAgent (agents st) = Some a →
  let st' := after st (sid, Disconnect) in
  a ≠ sid ∧
  agents_get sid (agents st') = None ∧
  busy <$> agents_get a (agents st') = Some true ∧
  pairings st' !! sid = None ∧
  pairings st' !! a = Some s ∧
  (s ≠ sid → s ≠ "__proto__" → pairings st' !! s = Some a) ∧
  waitingQueue st' = waitingQueue st ∧
  emitted st (sid, Disconnect) =
    [Msg s AgentDisconnected; Msg a (IncomingCall s); Msg s (CallRequested a)].
Proof.
  intros Hreach Hsid Hbusy Hp Hs Hfree st'.
  pose proof (reachable_store_ok _ Hreach) as [_ Hkeys].
  assert (a ≠ "") as Ha.
  { rewrite Forall_forall in Hkeys. by apply Hkeys, findFreeAgent_is_key. }
  destruct (findFreeAgent_free _ _ Hfree) as (ra & Hra & Hb).
  assert (a ≠ sid) as Hne by (intros ->; congruence).
  subst st'. rewrite after_exec, emitted_output. unfold exec, output. simpl.
  rewrite (disconnect_agent_reassign_run st sid r s a); [|done| |].
  2:{ rewrite Hp. by apply truthy_nonempty. }
  2:{ rewrite Hfree. by apply truthy_nonempty. }
  simpl. split_and!; try done.
  - by rewrite agents_get_delete, decide_True.
  - rewrite agents_get_delete, decide_False by done.
    by rewrite agents_get_set_busy, decide_True, Hra.
  - apply lookup_delete_eq.
  - rewrite lookup_delete_ne by done.
    apply offered_received_agent_first.
  - intros Hs' Hproto. rewrite lookup_delete_ne by done.
    by apply offered_received_agent_first.
Qed.

Lemma disconnect_of_agent_reassigns_partner_witness :
  let st := run init [("A1", AgentRegister None); ("S1", SupplierCall);
                      ("A2", AgentRegister None)] in
  reachable st ∧
  pairings st !! "A1" = Some "S1" ∧
  findFreeAgent (agents st) = Some "A2" ∧
  pairings (after st ("A1", Disconnect)) !! "A2" = Some "S1" ∧
  emitted st ("A1", Disconnect) =
    [Msg "S1" AgentDisconnected; Msg "A2" (IncomingCall "S1");
     Msg "S1" (CallRequested "A2")].
Proof.
  intros st.
  assert (reachable st) as Hreach by (apply reachable_run; vm_compute; reflexivity).
  destruct (disconnect_of_agent_reassigns_partner st "A1" (Agent "Agent-A1" true)
              "S1" "A2" Hreach)
    as (_ & _ & _ & _ & Ha & _ & _ & Hout);
    [reflexivity|reflexivity|reflexivity|discriminate|reflexivity|].
  split_and!; [exact Hreach|reflexivity|reflexivity|exact Ha|exact Hout].
Defined.

(** X22: a registered agent with no pairing entry disconnects: its record
    is deleted and nothing else happens; the queue and the pairing table are
    unchanged and nothing is emitted. *)
Theorem disconnect_of_idle_agent st sid r :
  agents_get sid (agents st) = Some r →
  pairings st !! sid = None →
  let st' := after st (sid, Disconnect) in
  agents_get sid (agents st') = None ∧
  (∀ k, k ≠ sid → agents_get k (agents st') = agents_get k (agents st)) ∧
  waitingQueue st' = waitingQueue st ∧
  pairings st' = pairings st ∧
  emitted st (sid, Disconnect) = [].
Proof.
  intros Hsid Hp st'.
  assert (disconnect sid st =
            (tt, State (agents_delete sid (agents st)) (waitingQueue st) (pairings st),
             [])) as Hrun.
  { destruct st as [ags q p]. simpl in *.
    unfold disconnect, delete_pairing, with_agents, with_pairings, skip.
    cbv [mbind M_bind mret M_ret gets modify emit]. simpl.
    rewrite Hsid. simpl. rewrite Hp. simpl. by rewrite delete_id. }
  subst st'. rewrite after_exec, emitted_output. unfold exec, output. simpl.
  rewrite Hrun. simpl. split_and!; try done.
  - by rewrite agents_get_delete, decide_True.
  - intros k Hk. by rewrite agents_get_delete, decide_False.
Qed.

Lemma disconnect_of_idle_agent_witness :
  let st := run init [("S1", SupplierCall); ("A1", AgentRegister None)] in
  agents_get "A1" (agents st) = Some (Agent "Agent-A1" false) ∧
  agents_get "A1" (agents (after st ("A1", Disconnect))) = None ∧
  waitingQueue (after st ("A1", Disconnect)) = waitingQueue st ∧
  emitted st ("A1", Disconnect) = [].
Proof.
  intros st.
  destruct (disconnect_of_idle_agent st "A1" (Agent "Agent-A1" false))
    as (Hgone & _ & Hq & _ & Hout); [reflexivity|reflexivity|].
  split_and!; [reflexivity|exact Hgone|exact Hq|exact Hout].
Defined.

(** ** Queue positions *)

Lemma indexOf_push_queued (x y : string) (q : list string) :
  x ∈ q → indexOf x (q ++ [y]) = indexOf x q.
Proof.
  induction q as [|z q IH]; [by intros ?%elem_of_nil|].
  rewrite elem_of_cons. intros Hin. simpl.
  destruct (decide (x = z)) as [->|Hne]; [done|].
  rewrite IH; [done|by destruct Hin].
Qed.

Lemma indexOf_nonneg (x : string) (q : list string) : x ∈ q → (0 ≤ indexOf x q)%Z.
Proof.
  intros Hin. destruct (indexOf_found x q Hin) as (i & -> & _). lia.
Qed.

Lemma indexOf_le_push (x y : string) (q : list string) :
  x ∈ q → (indexOf x (q ++ [y]) ≤ indexOf x q)%Z.
Proof. intros Hin. rewrite indexOf_push_queued by done. lia. Qed.

Lemma indexOf_le_shift (x y : string) (q : list string) :
  NoDup (y :: q) → x ∈ q → (indexOf x q ≤ indexOf x (y :: q))%Z.
Proof.
  intros [Hy _]%NoDup_cons Hin. pose proof (indexOf_nonneg x q Hin). simpl.
  destruct (decide (x = y)) as [->|]; [done|]. case_decide; lia.
Qed.

Lemma indexOf_le_splice (x : string) (i : nat) (q : list string) :
  NoDup q → x ∈ splice1 i q → (indexOf x (splice1 i q) ≤ indexOf x q)%Z.
Proof.
  revert i. induction q as [|y q IH]; intros i Hnd Hin; simpl in *; [done|].
  apply NoDup_cons in Hnd as [Hy Hnd].
  destruct i as [|i].
  - destruct (decide (x = y)) as [->|Hne]; [done|].
    pose proof (indexOf_nonneg x q Hin). case_decide; lia.
  - simpl. destruct (decide (x = y)) as [->|Hne]; [done|].
    apply elem_of_cons in Hin as [?|Hin]; [done|].
    pose proof (indexOf_nonneg _ _ Hin).
    pose proof (indexOf_nonneg x q (splice1_subseteq i q x Hin)).
    specialize (IH i Hnd Hin). repeat case_decide; lia.
Qed.

(** X23: while the queue has no duplicate, no event moves a waiting
    supplier back: for a supplier queued before the event and still queued
    after it, the index [indexOf] gives, which is what [queue-status]
    reports, has not grown. *)
Theorem queued_position_never_worsens st sid ev x :
  queue_unique st →
  x ∈ waitingQueue st →
  x ∈ waitingQueue (after st (sid, ev)) →
  (indexOf x (waitingQueue (after st (sid, ev))) ≤ indexOf x (waitingQueue st))%Z.
Proof.
  unfold queue_unique. intros Hnd Hin. destruct st as [ags q p]. simpl in *.
  destruct ev; run_handler;
    repeat case_match; simplify_eq/=; intros Hin';
    first
      [ lia
      | by apply indexOf_le_push
      | by apply indexOf_le_splice
      | by apply indexOf_le_shift ].
Qed.

Lemma queued_position_never_worsens_witness :
  let st := run init [("A1", AgentRegister None); ("S1", SupplierCall);
                      ("S2", SupplierCall); ("S3", SupplierCall)] in
  queue_unique st ∧
  waitingQueue st = ["S2"; "S3"] ∧
  waitingQueue (after st ("A1", EndCall "S1")) = ["S3"] ∧
  (indexOf "S3" (waitingQueue (after st ("A1", EndCall "S1"))) ≤
     indexOf "S3" (waitingQueue st))%Z.
Proof.
  intros st.
  assert (queue_unique st) as Hq.
  { apply NoDup_cons. split; [|apply NoDup_singleton].
    intros Hin%list_elem_of_singleton. discriminate. }
  split_and!; [exact Hq|reflexivity|reflexivity|].
  apply (queued_position_never_worsens st "A1" (EndCall "S1") "S3" Hq).
  - apply list_elem_of_further, list_elem_of_here.
  - apply list_elem_of_here.
Defined.

Lemma agent_reject_keeps_own_entry_witness :
  let st := run init [("A2", AgentRegister None); ("S0", SupplierCall);
                      ("A1", AgentRegister None); ("S1", SupplierCall);
                      ("S0", EndCall "A2")] in
  let st' := after st ("A1", AgentReject "S1") in
  reachable st ∧
  findFreeAgent (agents_set_busy "A1" false (agents st)) = Some "A2" ∧
  busy <$> agents_get "A1" (agents st') = Some false ∧
  pairings st' !! "A1" = pairings st !! "A1" ∧
  pairings st' !! "S1" = Some "A2".
Proof.
  intros st st'.
  assert (reachable st) as Hreach by (apply reachable_run; vm_compute; reflexivity).
  split_and!; [exact Hreach|reflexivity|..];
    apply (agent_reject_keeps_own_entry st "A1" "S1" "A2" Hreach);
    solve [eexists; reflexivity | reflexivity | discriminate].
Defined.
